(** * mcpiper: rendering, filtering and highlighting of mcrouter debug messages

    A shallow embedding of [mcrouter/tools/mcpiper/mcpiper.cpp]:
    [serializeMessageHeader], [msgReady], [matchAll], [buildDataRegex],
    [buildFilenameRegex] and the start of [run],
    together with models of the collaborators they call (the styled string,
    the folly formatting routines, IEEE-754 double arithmetic and the boost
    POSIX-basic regular expression search). *)

From Stdlib Require Import List Bool Arith NArith ZArith Lia Ascii String.
From Stdlib Require Import DecimalString.
From Corelib Require Import SpecFloat.
Import ListNotations.
Open Scope string_scope.
Open Scope nat_scope.

(* ------------------------------------------------------------------ *)
(** ** Colors and the styled string *)

(** Colors, named after the slots of [PrettyFormat] that [msgReady] uses,
    plus the default color of the terminal. The value formatter may use
    further colors of its own. *)
Inductive Color :=
| DEFAULT
| dataOpColor
| headerColor
| msgAttrColor
| dataValueColor
| attrColor
| matchColor
| formatterColor (n : nat).

Scheme Equality for Color.

(** Modelled from the spec: [StyledString] (StyledString.h, not part of the
    sources at hand). Section 4.1: an append-only sequence of bytes, each
    with a foreground color, plus a stack of append colors; [append] without
    an explicit color uses the top of the stack (or the default color);
    [setFg] overwrites the foreground color of exactly the given byte range.
    The runs of the spec are kept here byte by byte. *)
Record StyledString := mkStyledString {
  ss_chars : list (ascii * Color);
  ss_stack : list Color
}.

Definition ss_empty : StyledString := mkStyledString [] [].

Definition currentColor (s : StyledString) : Color :=
  match ss_stack s with
  | c :: _ => c
  | [] => DEFAULT
  end.

Definition colorize (str : string) (c : Color) : list (ascii * Color) :=
  map (fun a => (a, c)) (list_ascii_of_string str).

(** [out.append(str, color)] *)
Definition appendColored (s : StyledString) (str : string) (c : Color)
  : StyledString :=
  mkStyledString (ss_chars s ++ colorize str c)%list (ss_stack s).

(** [out.append(str)] *)
Definition append (s : StyledString) (str : string) : StyledString :=
  appendColored s str (currentColor s).

(** [out.append(other)]: the other string's bytes keep their own colors. *)
Definition appendStyled (s t : StyledString) : StyledString :=
  mkStyledString (ss_chars s ++ ss_chars t)%list (ss_stack s).

(** [out.pushBack(ch)] *)
Definition pushBack (s : StyledString) (ch : ascii) : StyledString :=
  append s (String ch EmptyString).

Definition pushAppendColor (s : StyledString) (c : Color) : StyledString :=
  mkStyledString (ss_chars s) (c :: ss_stack s).

Definition popAppendColor (s : StyledString) : StyledString :=
  mkStyledString (ss_chars s) (tl (ss_stack s)).

(** [out.text()]: the plain bytes, without colors. *)
Definition text (s : StyledString) : string :=
  string_of_list_ascii (map fst (ss_chars s)).

Fixpoint recolorFrom (i off len : nat) (c : Color) (l : list (ascii * Color))
  : list (ascii * Color) :=
  match l with
  | [] => []
  | (a, c0) :: l' =>
      (a, if (off <=? i) && (i <? off + len) then c else c0)
        :: recolorFrom (S i) off len c l'
  end.

(** [out.setFg(offset, length, color)]. The source asserts that the range
    lies inside the string; [msgReady] only passes ranges computed by
    [matchAll] on the same text. *)
Definition setFg (s : StyledString) (off len : nat) (c : Color)
  : StyledString :=
  mkStyledString (recolorFrom 0 off len c (ss_chars s)) (ss_stack s).

(** Foreground color of the byte at position [i]. *)
Definition colorAt (s : StyledString) (i : nat) : option Color :=
  option_map snd (nth_error (ss_chars s) i).

(* ------------------------------------------------------------------ *)
(** ** Messages *)

(** Modelled from the spec: [mc_op_t] (mcrouter/lib/mc/msg.h). *)
Inductive mc_op :=
| mc_op_unknown | mc_op_echo | mc_op_quit | mc_op_version | mc_op_servererr
| mc_op_get | mc_op_set | mc_op_add | mc_op_replace | mc_op_append
| mc_op_prepend | mc_op_cas | mc_op_delete | mc_op_incr | mc_op_decr
| mc_op_flushall | mc_op_flushre | mc_op_stats | mc_op_verbosity
| mc_op_lease_get | mc_op_lease_set | mc_op_shutdown | mc_op_end
| mc_op_metaget | mc_op_exec | mc_op_gets | mc_op_get_service_info.

Scheme Equality for mc_op.

(** Modelled from the spec: [mc_op_to_string] (mcrouter/lib/mc/msg.c), the
    operation name printed in the header. *)
Definition mc_op_to_string (o : mc_op) : string :=
  match o with
  | mc_op_unknown => "unknown" | mc_op_echo => "echo" | mc_op_quit => "quit"
  | mc_op_version => "version" | mc_op_servererr => "servererr"
  | mc_op_get => "get" | mc_op_set => "set" | mc_op_add => "add"
  | mc_op_replace => "replace" | mc_op_append => "append"
  | mc_op_prepend => "prepend" | mc_op_cas => "cas"
  | mc_op_delete => "delete" | mc_op_incr => "incr" | mc_op_decr => "decr"
  | mc_op_flushall => "flushall" | mc_op_flushre => "flushre"
  | mc_op_stats => "stats" | mc_op_verbosity => "verbosity"
  | mc_op_lease_get => "lease-get" | mc_op_lease_set => "lease-set"
  | mc_op_shutdown => "shutdown" | mc_op_end => "end"
  | mc_op_metaget => "metaget" | mc_op_exec => "exec" | mc_op_gets => "gets"
  | mc_op_get_service_info => "get-service-info"
  end.

(** Modelled from the spec: the result codes [mc_res_t] (msg.h), restricted
    to the common ones. *)
Inductive mc_res :=
| mc_res_unknown | mc_res_deleted | mc_res_touched | mc_res_found
| mc_res_notfound | mc_res_notstored | mc_res_stored | mc_res_exists
| mc_res_ok | mc_res_timeout | mc_res_local_error | mc_res_remote_error.

Scheme Equality for mc_res.

(** Modelled from the spec: [mc_res_to_string] (msg.c), the result name. *)
Definition mc_res_to_string (r : mc_res) : string :=
  match r with
  | mc_res_unknown => "mc_res_unknown" | mc_res_deleted => "mc_res_deleted"
  | mc_res_touched => "mc_res_touched" | mc_res_found => "mc_res_found"
  | mc_res_notfound => "mc_res_notfound"
  | mc_res_notstored => "mc_res_notstored"
  | mc_res_stored => "mc_res_stored" | mc_res_exists => "mc_res_exists"
  | mc_res_ok => "mc_res_ok" | mc_res_timeout => "mc_res_timeout"
  | mc_res_local_error => "mc_res_local_error"
  | mc_res_remote_error => "mc_res_remote_error"
  end.

(** The fields of [mc_msg_t] read by [msgReady]. An absent key or value is
    an [nstring] of length 0, an absent expiration time is 0. *)
Record McMsg := mkMsg {
  op : mc_op;
  result : mc_res;
  key : string;
  flags : N;
  exptime : N;
  value : string
}.

(* ------------------------------------------------------------------ *)
(** ** Text formatting helpers (folly) *)

Definition hexDigit (d : N) : ascii :=
  match d with
  | 0%N => "0" | 1%N => "1" | 2%N => "2" | 3%N => "3" | 4%N => "4"
  | 5%N => "5" | 6%N => "6" | 7%N => "7" | 8%N => "8" | 9%N => "9"
  | 10%N => "a" | 11%N => "b" | 12%N => "c" | 13%N => "d" | 14%N => "e"
  | _ => "f"
  end%char.

Fixpoint hexDigits (fuel : nat) (n : N) (acc : string) : string :=
  match fuel with
  | O => acc
  | S fuel' =>
      let acc' := String (hexDigit (N.modulo n 16)) acc in
      let q := N.div n 16 in
      if N.eqb q 0 then acc' else hexDigits fuel' q acc'
  end.

(** [folly::sformat("0x{:x}", n)] *)
Definition formatHex (n : N) : string :=
  ("0x" ++ hexDigits (S (N.size_nat n)) n "")%string.

(** [folly::to<std::string>(n)], [folly::sformat("{}", n)] and
    [folly::format("{:d}", n)] on an unsigned integer. *)
Definition decimalN (n : N) : string := NilEmpty.string_of_uint (N.to_uint n).

(** [folly::backslashify]: printable bytes other than the backslash are
    copied; the others become [\r], [\n], [\t], [\a], [\b], [\0], [\\] or
    [\xHH]. *)
Definition backslashifyChar (a : ascii) : string :=
  let n := nat_of_ascii a in
  if (n <? 32) || (126 <? n) || (n =? 92) then
    match n with
    | 13 => "\r" | 10 => "\n" | 9 => "\t" | 7 => "\a" | 8 => "\b"
    | 0 => "\0" | 92 => "\\"
    | _ => String "\" (String "x" (String (hexDigit (N.of_nat (n / 16)))
             (String (hexDigit (N.of_nat (n mod 16))) EmptyString)))
    end
  else String a EmptyString.

Fixpoint backslashify (s : string) : string :=
  match s with
  | EmptyString => EmptyString
  | String a s' => (backslashifyChar a ++ backslashify s')%string
  end.

(* ------------------------------------------------------------------ *)
(** ** [serializeMessageHeader] (mcpiper.cpp lines 147-167) *)

Definition serializeMessageHeader (msg : McMsg) : string :=
  let out := "" in
  let out :=
    if mc_op_beq (op msg) mc_op_unknown then out
    else out ++ mc_op_to_string (op msg) in
  let out :=
    if mc_res_beq (result msg) mc_res_unknown then out
    else (if 0 <? String.length out then out ++ " " else out)
         ++ mc_res_to_string (result msg) in
  let out :=
    if String.length (key msg) =? 0 then out
    else (if 0 <? String.length out then out ++ " " else out)
         ++ backslashify (key msg) in
  out.

(* ------------------------------------------------------------------ *)
(** ** IEEE-754 binary64 arithmetic and [{:.2f}] *)

Definition prec : Z := 53%Z.
Definition emax : Z := 1024%Z.

(** A C++ [double]. *)
Definition double := spec_float.

(** Conversion of a [size_t] to [double] (round to nearest even). *)
Definition doubleOfN (n : N) : double :=
  binary_normalize prec emax (Z.of_N n) 0%Z false.

(** [100.0 - 100.0 * compressed / uncompressed], evaluated as in the
    source: [(100.0 * compressed) / uncompressed], then subtracted. *)
Definition savingsPct (compressed uncompressed : N) : double :=
  let hundred := doubleOfN 100 in
  SFsub prec emax hundred
    (SFdiv prec emax (SFmul prec emax hundred (doubleOfN compressed))
       (doubleOfN uncompressed)).

(** [m * 2^e * 100] rounded to an integer, ties away from zero. *)
Definition scaledHundredths (m : positive) (e : Z) : Z :=
  if (0 <=? e)%Z then (Zpos m * 2 ^ e * 100)%Z
  else
    let den := (2 ^ (- e))%Z in
    let num := (Zpos m * 100)%Z in
    let q := (num / den)%Z in
    let r := (num mod den)%Z in
    if (den <=? 2 * r)%Z then (q + 1)%Z else q.

Definition decimalZ (z : Z) : string := decimalN (Z.to_N z).

Definition decimalDigit (d : Z) : ascii :=
  ascii_of_nat (48 + Z.to_nat d).

(** [q] hundredths written as [int.dd]. *)
Definition fixed2 (q : Z) : string :=
  decimalZ (q / 100) ++ "."
  ++ String (decimalDigit ((q mod 100) / 10))
       (String (decimalDigit (q mod 10)) "").

(** [folly::sformat("{:.2f}", x)]: folly's [FormatValue<double>] calls
    double-conversion's [ToFixed] with two digits, the infinity symbol
    ["inf"], the NaN symbol ["nan"] and no [UNIQUE_ZERO] flag. A finite
    value is its exact binary value rounded half away from zero, preceded by
    ["-"] when the double is negative (a negative zero included); an
    infinity is ["inf"], with ["-"] when negative; a NaN is ["nan"].
    ([ToFixed] refuses magnitudes of [1e60] and more; [savingsPct] stays far
    below them for sizes that fit in a [size_t].) *)
Definition formatFixed2 (x : double) : string :=
  match x with
  | S754_zero s => (if s then "-" else "") ++ "0.00"
  | S754_finite s m e => (if s then "-" else "") ++ fixed2 (scaledHundredths m e)
  | S754_infinity s => (if s then "-" else "") ++ "inf"
  | S754_nan => "nan"
  end.

(** [folly::sformat("{} uncompressed, {} compressed, {:.2f}% savings",
    uncompressedSize, value.size(), 100.0 - 100.0 * value.size()/uncompressedSize)] *)
Definition compressionSummary (uncompressedSize size : N) : string :=
  decimalN uncompressedSize ++ " uncompressed, " ++ decimalN size
  ++ " compressed, " ++ formatFixed2 (savingsPct size uncompressedSize)
  ++ "% savings".

(* ------------------------------------------------------------------ *)
(** ** Regular expressions: boost, POSIX basic syntax *)

(** The data pattern is compiled by [boost::regex] with
    [regex_constants::basic]. Modelled here: the fragment of POSIX basic
    syntax made of ordinary characters, [.] (any character), [\c] for a
    special character [c], and [*] after an atom (a leading [*] is an
    ordinary character). *)
Inductive Atom := AChar (a : ascii) | AAny.

(** An atom, and whether it is followed by [*]. *)
Definition Piece := (Atom * bool)%type.
Definition Regex := list Piece.

Definition isSpecial (a : ascii) : bool :=
  existsb (Ascii.eqb a) ["."; "*"; "["; "]"; "\"; "^"; "$"]%char.

(** Parsing of the fragment. [None]: a pattern outside the fragment
    (bracket expressions, anchors, intervals, groups, back-references). *)
Fixpoint parsePieces (l : list ascii) (acc : list Piece) : option Regex :=
  match l with
  | [] => Some (rev acc)
  | a :: l' =>
      if Ascii.eqb a "*" then
        match acc with
        | [] => parsePieces l' [(AChar "*", false)]
        | (at0, false) :: acc' => parsePieces l' ((at0, true) :: acc')
        | (_, true) :: _ => None
        end
      else if Ascii.eqb a "." then parsePieces l' ((AAny, false) :: acc)
      else if Ascii.eqb a "\" then
        match l' with
        | c :: l'' =>
            if isSpecial c then parsePieces l'' ((AChar c, false) :: acc)
            else None
        | [] => None
        end
      else if isSpecial a then None
      else parsePieces l' ((AChar a, false) :: acc)
  end.

Definition parseBRE (s : string) : option Regex :=
  parsePieces (list_ascii_of_string s) [].

Definition atomMatches (a : Atom) (c : ascii) : bool :=
  match a with
  | AChar x => Ascii.eqb x c
  | AAny => true
  end.

(** All lengths of the matches of [r] at the start of [s]. *)
Fixpoint matchLengths (r : Regex) (s : list ascii) {struct r} : list nat :=
  match r with
  | [] => [0]
  | (a, false) :: r' =>
      match s with
      | c :: s' => if atomMatches a c then map S (matchLengths r' s') else []
      | [] => []
      end
  | (a, true) :: r' =>
      (fix star (s : list ascii) : list nat :=
         (matchLengths r' s
          ++ match s with
             | c :: s' => if atomMatches a c then map S (star s') else []
             | [] => []
             end)%list) s
  end.

Fixpoint maxOpt (l : list nat) : option nat :=
  match l with
  | [] => None
  | n :: l' =>
      match maxOpt l' with
      | Some m => Some (Nat.max n m)
      | None => Some n
      end
  end.

(** The longest match at the start of [s]; with [notNull]
    ([match_not_initial_null]) an empty match there is refused. *)
Definition longestAt (r : Regex) (s : list ascii) (notNull : bool)
  : option nat :=
  maxOpt (filter (fun n => negb notNull || (0 <? n)) (matchLengths r s)).

(** [regex_search] from position [pos] (leftmost, then longest). *)
Fixpoint searchFrom (r : Regex) (s : list ascii) (pos : nat) (notNull : bool)
  : option (nat * nat) :=
  match longestAt r s notNull with
  | Some n => Some (pos, n)
  | None =>
      match s with
      | [] => None
      | _ :: s' => searchFrom r s' (S pos) false
      end
  end.

(** The successive matches of [boost::sregex_token_iterator]: each search
    restarts at the end of the previous match, refusing an empty match
    there when the previous match was empty. *)
Fixpoint iterMatches (fuel : nat) (r : Regex) (t : list ascii) (pos : nat)
  (notNull : bool) : list (nat * nat) :=
  match fuel with
  | O => []
  | S fuel' =>
      match searchFrom r (skipn pos t) pos notNull with
      | None => []
      | Some (q, n) => (q, n) :: iterMatches fuel' r t (q + n) (n =? 0)
      end
  end.

(** [matchAll] (mcpiper.cpp lines 134-145): the (index, size) pairs of all
    the matches enumerated by the token iterator. *)
Definition matchAll (text : string) (pattern : Regex) : list (nat * nat) :=
  let t := list_ascii_of_string text in
  iterMatches (2 * List.length t + 2) pattern t 0 false.

(* ------------------------------------------------------------------ *)
(** ** Configuration, collaborators and observable effects *)

(** What [msgReady] reads besides the message: the external flag
    description policy ([describeFlags]), the external value formatter
    ([gValueFormatter->uncompressAndFormat], returning the formatted value
    and the [uncompressedSize] out-parameter), [gSettings.quiet] and the
    compiled data pattern [gDataPattern] ([None] for a null pointer). *)
Record Env := mkEnv {
  describeFlags : N -> list string;
  uncompressAndFormat : string -> N -> StyledString * N;
  quiet : bool;
  gDataPattern : option Regex
}.

(** The effects of [msgReady] on the outside world, in order: calls of the
    value formatter, writes to [gTargetOut] and flushes of it. *)
Inductive Event :=
| FormatterCall (v : string) (f : N)
| SinkWrite (s : StyledString)
| SinkFlush.

(** A writer monad collecting the events. *)
Definition Trace (A : Type) := (list Event * A)%type.

Definition ret {A} (a : A) : Trace A := ([], a).

Definition bind {A B} (m : Trace A) (k : A -> Trace B) : Trace B :=
  let (l1, a) := m in
  let (l2, b) := k a in
  ((l1 ++ l2)%list, b).

Notation "x <- m ;; k" := (bind m (fun x => k))
  (at level 61, m at next level, right associativity).
Notation "m ;;; k" := (bind m (fun _ => k))
  (at level 61, right associativity).

Definition emit (e : Event) : Trace unit := ([e], tt).

Definition callUncompressAndFormat (env : Env) (v : string) (f : N)
  : Trace (StyledString * N) :=
  emit (FormatterCall v f) ;;; ret (uncompressAndFormat env v f).

(* ------------------------------------------------------------------ *)
(** ** [msgReady] (mcpiper.cpp lines 169-257) *)

Definition NL : string := String "010" "".
Definition NLchar : ascii := "010".

(** Lines 193-206: [" [" desc1 ", " desc2 ... "]"] in [attrColor]. *)
Definition appendFlagDescriptions (out : StyledString) (flagDesc : list string)
  : StyledString :=
  let out := pushAppendColor out attrColor in
  let out := append out " [" in
  let '(out, _) :=
    fold_left
      (fun (acc : StyledString * bool) (s : string) =>
         let (out, first) := acc in
         let out := if first then out else append out ", " in
         (append out s, false))
      flagDesc (out, true) in
  let out := pushBack out "]" in
  popAppendColor out.

(** Lines 174-214: the opening brace, the header and the attributes. *)
Definition renderAttributes (env : Env) (reqid : N) (msg : McMsg)
  : StyledString :=
  let out := ss_empty in
  let out := appendColored out ("{" ++ NL) dataOpColor in
  let msgHeader := serializeMessageHeader msg in
  let out :=
    if String.length msgHeader =? 0 then out
    else appendColored (append out "  ") msgHeader headerColor in
  let out := appendColored out (NL ++ "  reqid: ") msgAttrColor in
  let out := appendColored out (formatHex reqid) dataValueColor in
  let out := appendColored out (NL ++ "  flags: ") msgAttrColor in
  let out := appendColored out (formatHex (flags msg)) dataValueColor in
  let out :=
    if N.eqb (flags msg) 0 then out
    else
      let flagDesc := describeFlags env (flags msg) in
      match flagDesc with
      | [] => out
      | _ => appendFlagDescriptions out flagDesc
      end in
  let out :=
    if N.eqb (exptime msg) 0 then out
    else
      appendColored (appendColored out (NL ++ "  exptime: ") msgAttrColor)
        (decimalN (exptime msg)) dataValueColor in
  pushBack out NLchar.

(** [value.size()] *)
Definition valueSize (v : string) : N := N.of_nat (String.length v).

(** Lines 226-234: the text after ["  value size: "] (both branches append
    it in [dataValueColor]). *)
Definition valueSizeText (uncompressedSize size : N) : string :=
  if negb (N.eqb uncompressedSize size)
  then compressionSummary uncompressedSize size
  else decimalN size.

(** Lines 216-241: the value block. *)
Definition renderValue (env : Env) (msg : McMsg) (out : StyledString)
  : Trace StyledString :=
  if String.length (value msg) =? 0 then ret out
  else
    let v := value msg in
    r <- callUncompressAndFormat env v (flags msg) ;;
    let (formattedValue, uncompressedSize) := r in
    let out := appendColored out "  value size: " msgAttrColor in
    let out :=
      appendColored out (valueSizeText uncompressedSize (valueSize v))
        dataValueColor in
    let out :=
      if negb (quiet env)
      then appendStyled (appendColored out (NL ++ "  value: ") msgAttrColor)
             formattedValue
      else out in
    ret (pushBack out NLchar).

(** Lines 174-243: the rendered block. *)
Definition renderMessage (env : Env) (reqid : N) (msg : McMsg)
  : Trace StyledString :=
  out <- renderValue env msg (renderAttributes env reqid msg) ;;
  ret (appendColored out ("}" ++ NL) dataOpColor).

(** Lines 245-253: with a data pattern, a block without match is dropped
    ([None]); otherwise every match is recolored in [matchColor]. *)
Definition highlight (out : StyledString) (matches : list (nat * nat))
  : StyledString :=
  fold_left (fun o m => setFg o (fst m) (snd m) matchColor) matches out.

Definition filterAndHighlight (pattern : option Regex) (out : StyledString)
  : option StyledString :=
  match pattern with
  | None => Some out
  | Some p =>
      match matchAll (text out) p with
      | [] => None
      | matches => Some (highlight out matches)
      end
  end.

Definition msgReady (env : Env) (reqid : N) (msg : McMsg) : Trace unit :=
  if mc_op_beq (op msg) mc_op_end then ret tt
  else
    out <- renderMessage env reqid msg ;;
    match filterAndHighlight (gDataPattern env) out with
    | None => ret tt
    | Some out => emit (SinkWrite out) ;;; emit SinkFlush
    end.

(* ------------------------------------------------------------------ *)
(** ** Start-up: the data pattern (mcpiper.cpp lines 36-44, 275-304) *)

(** [Settings::matchExpression], default-initialised to the empty string
    and assigned by boost::program_options when the positional argument
    is given. *)
Definition matchExpressionOf (positional : option string) : string :=
  match positional with
  | Some s => s
  | None => ""
  end.

(** The outcome of [buildDataRegex]: [exit(1)] on a pattern boost
    rejects, otherwise the (possibly null) compiled pattern. *)
Inductive Startup := StartupExit (code : nat) | StartupRun (p : option Regex).

(** [buildDataRegex], with the boost compiler [compile] ([None]: boost
    throws). *)
Definition buildDataRegex (compile : string -> option Regex)
  (matchExpression : string) : Startup :=
  if negb (String.eqb matchExpression "") then
    match compile matchExpression with
    | Some r => StartupRun (Some r)
    | None => StartupExit 1
    end
  else StartupRun None.

(** [buildFilenameRegex] (lines 262-273): the same shape as
    [buildDataRegex], on the [--filename-pattern] option. *)
Definition buildFilenameRegex (compile : string -> option Regex)
  (filenamePattern : string) : Startup :=
  if negb (String.eqb filenamePattern "") then
    match compile filenamePattern with
    | Some r => StartupRun (Some r)
    | None => StartupExit 1
    end
  else StartupRun None.

(** What the start of [run] shows: a line on the standard output, or the
    [LOG(ERROR)] message of a rejected pattern (its fixed prefix; boost's
    message [e.what()] follows it). *)
Inductive RunOutput := Stdout (line : string) | LogErrorPrefix (prefix : string).

(** Lines 293-304 of [run], up to the event loop, which then runs with the
    returned data pattern. [operator<<] of a boost regex prints its
    expression, and [std::endl] a newline. *)
Definition runStartup (compile : string -> option Regex)
  (filenamePattern matchExpression : string) : list RunOutput * Startup :=
  match buildFilenameRegex compile filenamePattern with
  | StartupExit code =>
      ([LogErrorPrefix "Invalid filename pattern: "], StartupExit code)
  | StartupRun fp =>
      let out1 :=
        match fp with
        | Some _ => [Stdout ("Filename pattern: " ++ filenamePattern ++ NL)]
        | None => []
        end in
      match buildDataRegex compile matchExpression with
      | StartupExit code =>
          ((out1 ++ [LogErrorPrefix "Invalid pattern: "])%list, StartupExit code)
      | StartupRun dp =>
          ((out1 ++ match dp with
                    | Some _ => [Stdout ("Data pattern: " ++ matchExpression ++ NL)]
                    | None => []
                    end)%list, StartupRun dp)
      end
  end.

(* ------------------------------------------------------------------ *)
(** ** Vocabulary of the properties *)

Definition isSinkEvent (e : Event) : bool :=
  match e with
  | FormatterCall _ _ => false
  | SinkWrite _ | SinkFlush => true
  end.

Definition isFormatterCall (e : Event) : bool :=
  match e with
  | FormatterCall _ _ => true
  | _ => false
  end.

(** The header fields that are present, in order: operation name, result
    name, escaped key. *)
Definition headerFields (msg : McMsg) : list string :=
  ((if mc_op_beq (op msg) mc_op_unknown then []
    else [mc_op_to_string (op msg)])
   ++ (if mc_res_beq (result msg) mc_res_unknown then []
       else [mc_res_to_string (result msg)])
   ++ (if String.length (key msg) =? 0 then []
       else [backslashify (key msg)]))%list.

(** The savings percentage as the spec words it: the exact rational
    [100 - 100 * compressed / uncompressed] rounded to two decimals (half
    away from zero); undefined for [uncompressed = 0]. *)
Definition specSavingsText (compressed uncompressed : N) : option string :=
  if N.eqb uncompressed 0 then None
  else
    let num := (10000 * (Z.of_N uncompressed - Z.of_N compressed))%Z in
    let den := Z.of_N uncompressed in
    let q := ((2 * Z.abs num + den) / (2 * den))%Z in
    Some ((if (num <? 0)%Z && (0 <? q)%Z then "-" else "") ++ fixed2 q).

(** The value-size line as the spec words it. *)
Definition specValueSizeText (uncompressedSize size : N) : option string :=
  if N.eqb uncompressedSize size then Some (decimalN size)
  else
    option_map
      (fun pct => decimalN uncompressedSize ++ " uncompressed, "
                  ++ decimalN size ++ " compressed, " ++ pct ++ "% savings")
      (specSavingsText size uncompressedSize).

(** The iteration of [matchAll] as a relation: every element is the
    result of the next search, and the list ends exactly when a search
    fails. *)
Fixpoint iterDone (r : Regex) (t : list ascii) (pos : nat) (notNull : bool)
  (l : list (nat * nat)) : Prop :=
  match l with
  | [] => searchFrom r (skipn pos t) pos notNull = None
  | (q, n) :: l' =>
      searchFrom r (skipn pos t) pos notNull = Some (q, n)
      /\ iterDone r t (q + n) (n =? 0) l'
  end.

(** Matches that do not overlap and start strictly left to right. *)
Fixpoint leftToRight (l : list (nat * nat)) : Prop :=
  match l with
  | (q1, n1) :: (((q2, n2) :: _) as l') => q1 + n1 <= q2 /\ q1 < q2 /\ leftToRight l'
  | _ => True
  end.

Fixpoint prefixb (l s : list ascii) : bool :=
  match l, s with
  | [], _ => true
  | a :: l', b :: s' => Ascii.eqb a b && prefixb l' s'
  | _ :: _, [] => false
  end.

(** [w] occurs in [t] at byte [q]. *)
Definition occursAt (w t : string) (q : nat) : bool :=
  prefixb (list_ascii_of_string w) (skipn q (list_ascii_of_string t)).

Definition occurrences (w t : string) : list nat :=
  filter (occursAt w t) (seq 0 (S (String.length t))).

(** Every byte of [q, q + len) has the match color. *)
Definition highlightedRange (out : StyledString) (q len : nat) : bool :=
  forallb
    (fun i => match colorAt out i with
              | Some c => Color_beq c matchColor
              | None => false
              end)
    (seq q len).

(** The regex of a pattern made of ordinary characters only. *)
Definition literalRegex (w : string) : Regex :=
  map (fun a => (AChar a, false)) (list_ascii_of_string w).

(** Sample configurations. *)
Definition sampleEnv (q : bool) (pattern : option Regex) : Env :=
  mkEnv (fun _ => []) (fun v _ => (ss_empty, 2 * valueSize v)%N) q pattern.

(** Printable ASCII: the bytes from the space to [~]. *)
Definition isPrintable (a : ascii) : bool :=
  (32 <=? nat_of_ascii a) && (nat_of_ascii a <=? 126).

Definition printableString (s : string) : bool :=
  forallb isPrintable (list_ascii_of_string s).

(** The value of a lowercase hexadecimal digit. *)
Definition hexVal (c : ascii) : option N :=
  (fix go (l : list ascii) (d : N) : option N :=
     match l with
     | [] => None
     | x :: l' => if Ascii.eqb x c then Some d else go l' (N.succ d)
     end) (list_ascii_of_string "0123456789abcdef") 0%N.

Fixpoint hexDecodeFrom (l : list ascii) (acc : N) : option N :=
  match l with
  | [] => Some acc
  | c :: l' =>
      match hexVal c with
      | Some d => hexDecodeFrom l' (acc * 16 + d)
      | None => None
      end
  end.

(** A non-empty string of lowercase hexadecimal digits, read as a number. *)
Definition hexDecode (s : string) : option N :=
  match list_ascii_of_string s with
  | [] => None
  | l => hexDecodeFrom l 0
  end.

(** The byte written after a backslash by [backslashify], read back. *)
Definition unescapeChar (c : ascii) : option ascii :=
  if Ascii.eqb c "r" then Some "013"%char
  else if Ascii.eqb c "n" then Some "010"%char
  else if Ascii.eqb c "t" then Some "009"%char
  else if Ascii.eqb c "a" then Some "007"%char
  else if Ascii.eqb c "b" then Some "008"%char
  else if Ascii.eqb c "0" then Some "000"%char
  else if Ascii.eqb c "\" then Some "\"%char
  else None.

(** Reading an escaped string back: the inverse of [backslashify]. *)
Fixpoint unbackslashify (s : string) : option string :=
  match s with
  | EmptyString => Some EmptyString
  | String a s1 =>
      if Ascii.eqb a "\" then
        match s1 with
        | String c s2 =>
            if Ascii.eqb c "x" then
              match s2 with
              | String h1 (String h2 s3) =>
                  match hexVal h1, hexVal h2 with
                  | Some d1, Some d2 =>
                      option_map (String (ascii_of_N (16 * d1 + d2)))
                        (unbackslashify s3)
                  | _, _ => None
                  end
              | _ => None
              end
            else
              match unescapeChar c with
              | Some a' => option_map (String a') (unbackslashify s2)
              | None => None
              end
        | EmptyString => None
        end
      else option_map (String a) (unbackslashify s1)
  end.

(** Byte [i] lies in one of the ranges [ms]. *)
Definition inMatch (ms : list (nat * nat)) (i : nat) : bool :=
  existsb (fun m => (fst m <=? i) && (i <? fst m + snd m)) ms.

(** [", " d1 ", " d2 ...]: the flag descriptions after the first. *)
Fixpoint prefixJoin (ds : list string) : string :=
  match ds with
  | [] => ""
  | d :: ds' => ", " ++ d ++ prefixJoin ds'
  end.

(** The bytes of the attribute part of a block with their colors, when the
    flag description policy gives [flagDesc] for the message's flags. *)
Definition attributesLayout (flagDesc : list string) (reqid : N) (msg : McMsg)
  : list (ascii * Color) :=
  let h := serializeMessageHeader msg in
  (colorize ("{" ++ NL) dataOpColor
   ++ (if String.length h =? 0 then []
       else colorize "  " DEFAULT ++ colorize h headerColor)
   ++ colorize (NL ++ "  reqid: ") msgAttrColor
   ++ colorize (formatHex reqid) dataValueColor
   ++ colorize (NL ++ "  flags: ") msgAttrColor
   ++ colorize (formatHex (flags msg)) dataValueColor
   ++ (if N.eqb (flags msg) 0 then []
       else match flagDesc with
            | [] => []
            | _ => colorize (" [" ++ String.concat ", " flagDesc ++ "]")
                     attrColor
            end)
   ++ (if N.eqb (exptime msg) 0 then []
       else colorize (NL ++ "  exptime: ") msgAttrColor
            ++ colorize (decimalN (exptime msg)) dataValueColor)
   ++ colorize NL DEFAULT)%list.

(** The bytes of the value part of a block with their colors. *)
Definition valueLayout (env : Env) (msg : McMsg) : list (ascii * Color) :=
  if String.length (value msg) =? 0 then []
  else
    let (fv, u) := uncompressAndFormat env (value msg) (flags msg) in
    (colorize "  value size: " msgAttrColor
     ++ colorize (valueSizeText u (valueSize (value msg))) dataValueColor
     ++ (if quiet env then []
         else colorize (NL ++ "  value: ") msgAttrColor ++ ss_chars fv)
     ++ colorize NL DEFAULT)%list.

(* ================================================================== *)
(** * Properties *)

(** ** Strings as lists of characters *)

Lemma las_app (a b : string) :
  list_ascii_of_string (a ++ b) =
  (list_ascii_of_string a ++ list_ascii_of_string b)%list.
Proof. induction a as [|c a IH]; simpl; [reflexivity | now rewrite IH]. Qed.

Lemma las_inj (a b : string) :
  list_ascii_of_string a = list_ascii_of_string b -> a = b.
Proof.
  intros H.
  rewrite <- (string_of_list_ascii_of_string a),
    <- (string_of_list_ascii_of_string b), H.
  reflexivity.
Qed.

Lemma las_length (s : string) :
  List.length (list_ascii_of_string s) = String.length s.
Proof. induction s as [|c s IH]; simpl; congruence. Qed.

Lemma las_text (s : StyledString) :
  list_ascii_of_string (text s) = map fst (ss_chars s).
Proof. unfold text. apply list_ascii_of_string_of_list_ascii. Qed.

Lemma map_fst_colorize (str : string) (c : Color) :
  map fst (colorize str c) = list_ascii_of_string str.
Proof.
  unfold colorize. rewrite map_map. simpl. apply map_id.
Qed.

(** Turn a goal [a = b] on strings into one on character lists and push
    [list_ascii_of_string] through appends. *)
Ltac to_chars :=
  apply las_inj; repeat rewrite ?las_app, ?las_text.

Lemma text_appendColored (s : StyledString) (str : string) (c : Color) :
  text (appendColored s str c) = text s ++ str.
Proof.
  to_chars. simpl. rewrite map_app, map_fst_colorize. reflexivity.
Qed.

Lemma text_append (s : StyledString) (str : string) :
  text (append s str) = text s ++ str.
Proof. apply text_appendColored. Qed.

Lemma text_appendStyled (s t : StyledString) :
  text (appendStyled s t) = text s ++ text t.
Proof. to_chars. simpl. now rewrite map_app. Qed.

Lemma text_pushBack (s : StyledString) (ch : ascii) :
  text (pushBack s ch) = text s ++ String ch "".
Proof. apply text_append. Qed.

Lemma sapp_assoc (a b c : string) : a ++ (b ++ c) = (a ++ b) ++ c.
Proof. induction a as [|x a IH]; simpl; congruence. Qed.

Lemma sapp_nil_r (a : string) : a ++ "" = a.
Proof. induction a as [|x a IH]; simpl; congruence. Qed.

Lemma sapp_cancel_l (a b c : string) : a ++ b = a ++ c -> b = c.
Proof. induction a as [|x a IH]; simpl; [auto | intros H; injection H; auto]. Qed.

Lemma length_recolorFrom i off len c l :
  List.length (recolorFrom i off len c l) = List.length l.
Proof.
  revert i; induction l as [|[a c0] l IH]; intros i; simpl; auto.
Qed.

Lemma map_fst_recolorFrom i off len c l :
  map fst (recolorFrom i off len c l) = map fst l.
Proof.
  revert i; induction l as [|[a c0] l IH]; intros i; simpl; [reflexivity|].
  now rewrite IH.
Qed.

Lemma text_setFg (s : StyledString) off len c :
  text (setFg s off len c) = text s.
Proof. unfold text, setFg; simpl. now rewrite map_fst_recolorFrom. Qed.

Lemma text_highlight (s : StyledString) ms :
  text (highlight s ms) = text s.
Proof.
  unfold highlight. revert s.
  induction ms as [|m ms IH]; intros s; simpl; [reflexivity|].
  now rewrite IH, text_setFg.
Qed.

(** ** The effects of rendering and dispatch *)

Lemma renderMessage_events env reqid msg :
  fst (renderMessage env reqid msg) =
  if String.length (value msg) =? 0 then []
  else [FormatterCall (value msg) (flags msg)].
Proof.
  unfold renderMessage, renderValue.
  destruct (String.length (value msg) =? 0); [reflexivity|].
  unfold callUncompressAndFormat, bind, emit, ret; simpl.
  destruct (uncompressAndFormat env (value msg) (flags msg)); reflexivity.
Qed.

Lemma renderMessage_no_sink env reqid msg :
  Forall (fun e => isSinkEvent e = false) (fst (renderMessage env reqid msg)).
Proof.
  rewrite renderMessage_events.
  destruct (String.length (value msg) =? 0); repeat constructor.
Qed.

(** [msgReady] on a message other than the end sentinel: the events of the
    rendering, then one write and one flush, or nothing more. *)
Lemma msgReady_unfold env reqid msg :
  op msg <> mc_op_end ->
  msgReady env reqid msg =
  ((fst (renderMessage env reqid msg)
    ++ match filterAndHighlight (gDataPattern env)
               (snd (renderMessage env reqid msg)) with
       | None => []
       | Some out => [SinkWrite out; SinkFlush]
       end)%list, tt).
Proof.
  intros Hop. unfold msgReady.
  destruct (mc_op_beq (op msg) mc_op_end) eqn:E.
  { apply internal_mc_op_dec_bl in E. contradiction. }
  destruct (renderMessage env reqid msg) as [l out]. simpl.
  destruct (filterAndHighlight (gDataPattern env) out); simpl;
    now rewrite ?app_nil_r.
Qed.

Ltac text_simpl :=
  repeat rewrite ?text_appendColored, ?text_appendStyled, ?text_pushBack,
    ?text_append.

(** The text of a rendered block: the attribute block, the value block and
    the closing brace. *)
Lemma renderMessage_text env reqid msg :
  text (snd (renderMessage env reqid msg)) =
  text (renderAttributes env reqid msg)
  ++ (if String.length (value msg) =? 0 then ""
      else "  value size: "
           ++ valueSizeText
                (snd (uncompressAndFormat env (value msg) (flags msg)))
                (valueSize (value msg))
           ++ (if quiet env then ""
               else NL ++ "  value: "
                    ++ text (fst (uncompressAndFormat env (value msg)
                                    (flags msg))))
           ++ NL)
  ++ "}" ++ NL.
Proof.
  unfold renderMessage.
  generalize (renderAttributes env reqid msg) as out; intros out.
  unfold renderValue.
  destruct (String.length (value msg) =? 0).
  - cbn [bind ret fst snd]. text_simpl. reflexivity.
  - unfold callUncompressAndFormat, bind, emit, ret; cbn [fst snd].
    destruct (uncompressAndFormat env (value msg) (flags msg)) as [fv u].
    cbn [fst snd]. destruct (quiet env); cbn [negb]; text_simpl;
      to_chars; rewrite <- ?app_assoc; reflexivity.
Qed.

(** ** The message header *)

Lemma length_sapp (a b : string) :
  String.length (a ++ b) = String.length a + String.length b.
Proof. induction a as [|x a IH]; simpl; congruence. Qed.

Lemma op_name_nonempty (o : mc_op) : String.length (mc_op_to_string o) <> 0.
Proof. destruct o; discriminate. Qed.

Lemma res_name_nonempty (r : mc_res) :
  String.length (mc_res_to_string r) <> 0.
Proof. destruct r; discriminate. Qed.

Lemma backslashifyChar_nonempty (a : ascii) :
  String.length (backslashifyChar a) <> 0.
Proof.
  destruct a as [[] [] [] [] [] [] [] []]; vm_compute; discriminate.
Qed.

Lemma backslashify_nonempty (k : string) :
  String.length k <> 0 -> String.length (backslashify k) <> 0.
Proof.
  destruct k as [|a k]; [contradiction|]. intros _. simpl.
  rewrite length_sapp. pose proof (backslashifyChar_nonempty a). lia.
Qed.

Lemma serializeMessageHeader_fields (msg : McMsg) :
  serializeMessageHeader msg = String.concat " " (headerFields msg).
Proof.
  unfold serializeMessageHeader, headerFields.
  pose proof (op_name_nonempty (op msg)) as Ho.
  pose proof (res_name_nonempty (result msg)) as Hr.
  pose proof (backslashify_nonempty (key msg)) as Hk.
  destruct (mc_op_beq (op msg) mc_op_unknown);
  destruct (mc_res_beq (result msg) mc_res_unknown);
  destruct (String.length (key msg) =? 0) eqn:Ek;
  apply Nat.eqb_neq in Ek || idtac; simpl;
  repeat match goal with
  | |- context [0 <? String.length ?s] =>
      let E := fresh in
      destruct (0 <? String.length s) eqn:E;
      [apply Nat.ltb_lt in E | apply Nat.ltb_ge in E];
      rewrite ?length_sapp in E; simpl in E; try lia
  end;
  apply las_inj; repeat progress (rewrite ?las_app; simpl);
  rewrite <- ?app_assoc; reflexivity.
Qed.

(** ** Claims *)

(** C1. The record [{requestId:1, operation:"set", result:unknown,
    key:"foo", flags:0, expiration:absent, value:absent}] renders exactly as
    ["{\n  set foo\n  reqid: 0x1\n  flags: 0x0\n}\n"], whatever the
    configuration; and in general the header line is the present fields
    (operation name, result name, escaped key) joined by single spaces. *)
Theorem render_set_foo_exact :
  (forall env : Env,
     text (snd (renderMessage env 1 (mkMsg mc_op_set mc_res_unknown "foo" 0 0 "")))
     = "{" ++ NL ++ "  set foo" ++ NL ++ "  reqid: 0x1" ++ NL
       ++ "  flags: 0x0" ++ NL ++ "}" ++ NL)
  /\ (forall msg : McMsg,
        serializeMessageHeader msg = String.concat " " (headerFields msg)).
Proof.
  split.
  - intros env. reflexivity.
  - exact serializeMessageHeader_fields.
Qed.

(** C3. A message whose operation is the end sentinel produces no event at
    all: nothing is rendered, the formatter is not called, nothing is
    matched or written. *)
Theorem msgReady_end_sentinel_silent (env : Env) (reqid : N) (msg : McMsg)
  (Hend : op msg = mc_op_end) :
  msgReady env reqid msg = ([], tt).
Proof. unfold msgReady. rewrite Hend. reflexivity. Qed.

Lemma msgReady_end_sentinel_silent_witness :
  op (mkMsg mc_op_end mc_res_unknown "k" 0 0 "v") = mc_op_end
  /\ msgReady (sampleEnv false None) 1 (mkMsg mc_op_end mc_res_unknown "k" 0 0 "v")
     = ([], tt).
Proof.
  split; [reflexivity|].
  apply (msgReady_end_sentinel_silent (sampleEnv false None) 1
           (mkMsg mc_op_end mc_res_unknown "k" 0 0 "v")).
  reflexivity.
Defined.

(** C2. For a message other than the end sentinel, rendering touches no
    sink; with a data pattern and no match the message ends there (no
    write, no flush); a kept message is written once and then flushed, as
    the last two events. *)
Theorem msgReady_drop_before_sink (env : Env) (reqid : N) (msg : McMsg)
  (Hop : op msg <> mc_op_end) :
  Forall (fun e => isSinkEvent e = false) (fst (renderMessage env reqid msg))
  /\ (forall p, gDataPattern env = Some p ->
        matchAll (text (snd (renderMessage env reqid msg))) p = [] ->
        msgReady env reqid msg = (fst (renderMessage env reqid msg), tt))
  /\ (forall out,
        filterAndHighlight (gDataPattern env) (snd (renderMessage env reqid msg))
        = Some out ->
        msgReady env reqid msg
        = ((fst (renderMessage env reqid msg) ++ [SinkWrite out; SinkFlush])%list,
           tt)).
Proof.
  rewrite (msgReady_unfold env reqid msg Hop).
  split; [apply renderMessage_no_sink|split].
  - intros p Hp Hm. unfold filterAndHighlight. rewrite Hp, Hm.
    now rewrite app_nil_r.
  - intros out H. now rewrite H.
Qed.

Lemma msgReady_drop_before_sink_witness :
  op (mkMsg mc_op_get mc_res_found "k" 0 0 "v") <> mc_op_end
  /\ Forall (fun e => isSinkEvent e = false)
       (fst (renderMessage (sampleEnv false (parseBRE "zzz")) 1
               (mkMsg mc_op_get mc_res_found "k" 0 0 "v"))).
Proof.
  split; [discriminate|].
  apply (msgReady_drop_before_sink (sampleEnv false (parseBRE "zzz")) 1
           (mkMsg mc_op_get mc_res_found "k" 0 0 "v")).
  discriminate.
Defined.

(** C8. An empty positional pattern leaves [matchExpression] as it is
    without the argument, [buildDataRegex] then compiles nothing (whatever
    the compiler), and without a data pattern every message other than the
    end sentinel is written unchanged and flushed. *)
Theorem empty_pattern_is_no_pattern :
  matchExpressionOf (Some "") = matchExpressionOf None
  /\ (forall compile : string -> option Regex,
        buildDataRegex compile (matchExpressionOf (Some "")) = StartupRun None)
  /\ (forall env reqid msg,
        gDataPattern env = None -> op msg <> mc_op_end ->
        msgReady env reqid msg
        = ((fst (renderMessage env reqid msg)
            ++ [SinkWrite (snd (renderMessage env reqid msg)); SinkFlush])%list,
           tt)).
Proof.
  split; [reflexivity|split].
  - intros compile. reflexivity.
  - intros env reqid msg Hp Hop.
    rewrite (msgReady_unfold env reqid msg Hop), Hp. reflexivity.
Qed.

Lemma empty_pattern_is_no_pattern_witness :
  msgReady (sampleEnv false None) 1 (mkMsg mc_op_set mc_res_unknown "foo" 0 0 "")
  = ((fst (renderMessage (sampleEnv false None) 1
             (mkMsg mc_op_set mc_res_unknown "foo" 0 0 ""))
      ++ [SinkWrite (snd (renderMessage (sampleEnv false None) 1
                            (mkMsg mc_op_set mc_res_unknown "foo" 0 0 "")));
          SinkFlush])%list, tt).
Proof.
  destruct empty_pattern_is_no_pattern as (_ & _ & H).
  exact (H (sampleEnv false None) 1%N
           (mkMsg mc_op_set mc_res_unknown "foo" 0 0 "")
           ltac:(reflexivity) ltac:(discriminate)).
Defined.

Lemma valueSize_nonzero (v : string) :
  String.length v <> 0 -> valueSize v <> 0%N.
Proof. unfold valueSize. lia. Qed.

(** C4 (amended). For a message with a non-empty value that reaches the
    renderer, the line after ["  value size: "] is [valueSizeText u c] for
    the formatter's [u] and the raw length [c]: the raw length alone when
    they are equal, otherwise ["{u} uncompressed, {c} compressed, {pct}%
    savings"] where [pct] is the double [100.0 - 100.0 * c / u] printed
    with two decimals; raw 10 and uncompressed 20 give
    ["20 uncompressed, 10 compressed, 50.00% savings"]. *)
Theorem value_size_line_double (env : Env) (reqid : N) (msg : McMsg)
  (Hval : String.length (value msg) <> 0) :
  let u := snd (uncompressAndFormat env (value msg) (flags msg)) in
  let c := valueSize (value msg) in
  text (snd (renderMessage env reqid msg)) =
  text (renderAttributes env reqid msg) ++ "  value size: "
  ++ valueSizeText u c
  ++ (if quiet env then ""
      else NL ++ "  value: "
           ++ text (fst (uncompressAndFormat env (value msg) (flags msg))))
  ++ NL ++ "}" ++ NL
  /\ valueSizeText u c =
     (if N.eqb u c then decimalN c
      else decimalN u ++ " uncompressed, " ++ decimalN c ++ " compressed, "
           ++ formatFixed2 (savingsPct c u) ++ "% savings")
  /\ valueSizeText 20 10 = "20 uncompressed, 10 compressed, 50.00% savings".
Proof.
  intros u c. split; [|split].
  - rewrite renderMessage_text.
    apply Nat.eqb_neq in Hval. rewrite Hval.
    to_chars; rewrite <- ?app_assoc; reflexivity.
  - unfold valueSizeText, compressionSummary.
    destruct (N.eqb u c); reflexivity.
  - vm_compute. reflexivity.
Qed.

Lemma value_size_line_double_witness :
  String.length (value (mkMsg mc_op_get mc_res_found "k" 0 0 "0123456789")) <> 0
  /\ valueSizeText 20 10 = "20 uncompressed, 10 compressed, 50.00% savings".
Proof.
  split; [discriminate|].
  apply (value_size_line_double (sampleEnv false None) 1
           (mkMsg mc_op_get mc_res_found "k" 0 0 "0123456789")).
  discriminate.
Defined.

(** C4 (counterexample). Raw length 98888824 and uncompressed size
    1977776479999: the exact savings 99.99499999999999999975...% rounds to
    99.99, but the double computed by the source is
    99.9950000000000045...; so the line printed by [msgReady] (lemma
    [value_size_line_double]) differs from the one the claim describes. *)
Lemma value_size_rounding_counterexample :
  valueSizeText 1977776479999 98888824
  = "1977776479999 uncompressed, 98888824 compressed, 100.00% savings"
  /\ specValueSizeText 1977776479999 98888824
     = Some "1977776479999 uncompressed, 98888824 compressed, 99.99% savings"
  /\ Some (valueSizeText 1977776479999 98888824)
     <> specValueSizeText 1977776479999 98888824.
Proof.
  split; [vm_compute; reflexivity|split; [vm_compute; reflexivity|]].
  vm_compute. discriminate.
Qed.

(** C9. When the value is non-empty and the formatter reports an
    uncompressed size of 0, the sizes differ, the compression branch is
    taken and the savings expression divides by the double [+0.0]: its
    value is an infinity or NaN, never a finite number, and it is printed
    as ["-inf"], ["inf"] or ["nan"] (["-inf"] for a raw length of 3). *)
Theorem savings_divides_by_zero (env : Env) (reqid : N) (msg : McMsg)
  (Hval : String.length (value msg) <> 0)
  (Hzero : snd (uncompressAndFormat env (value msg) (flags msg)) = 0%N) :
  let c := valueSize (value msg) in
  valueSizeText 0 c = compressionSummary 0 c
  /\ doubleOfN 0 = S754_zero false
  /\ savingsPct c 0 =
     SFsub prec emax (doubleOfN 100)
       (SFdiv prec emax (SFmul prec emax (doubleOfN 100) (doubleOfN c))
          (S754_zero false))
  /\ match savingsPct c 0 with
     | S754_infinity _ | S754_nan => True
     | _ => False
     end
  /\ (formatFixed2 (savingsPct c 0) = "-inf"
      \/ formatFixed2 (savingsPct c 0) = "inf"
      \/ formatFixed2 (savingsPct c 0) = "nan")
  /\ exists rest,
       text (snd (renderMessage env reqid msg)) =
       text (renderAttributes env reqid msg) ++ "  value size: "
       ++ compressionSummary 0 c ++ rest.
Proof.
  intros c.
  assert (Hc : valueSizeText 0 c = compressionSummary 0 c).
  { unfold valueSizeText. pose proof (valueSize_nonzero _ Hval).
    destruct (N.eqb 0 c) eqn:E; [apply N.eqb_eq in E; subst c; lia|].
    reflexivity. }
  split; [exact Hc|split; [reflexivity|split; [reflexivity|split; [|split]]]].
  - unfold savingsPct.
    destruct (SFmul prec emax (doubleOfN 100) (doubleOfN c)) as [s|s|
      |s m e] eqn:E; vm_compute; exact I.
  - unfold savingsPct.
    destruct (SFmul prec emax (doubleOfN 100) (doubleOfN c)) as [s|s|
      |s m e] eqn:E; try destruct s; vm_compute;
      first [left; reflexivity | right; left; reflexivity
            | right; right; reflexivity].
  - pose proof (renderMessage_text env reqid msg) as H.
    apply Nat.eqb_neq in Hval. rewrite Hval, Hzero in H.
    fold c in H. rewrite Hc in H. rewrite H.
    eexists. rewrite <- !sapp_assoc. reflexivity.
Qed.

Lemma savings_divides_by_zero_witness :
  String.length (value (mkMsg mc_op_get mc_res_found "k" 0 0 "abc")) <> 0
  /\ snd (uncompressAndFormat
            (mkEnv (fun _ => []) (fun _ _ => (ss_empty, 0%N)) false None)
            "abc" 0) = 0%N
  /\ doubleOfN 0 = S754_zero false
  /\ savingsPct 3 0 = S754_infinity true
  /\ compressionSummary 0 3 = "0 uncompressed, 3 compressed, -inf% savings".
Proof.
  split; [discriminate|split; [reflexivity|split;
    [|split; vm_compute; reflexivity]]].
  destruct (savings_divides_by_zero
              (mkEnv (fun _ => []) (fun _ _ => (ss_empty, 0%N)) false None) 1
              (mkMsg mc_op_get mc_res_found "k" 0 0 "abc")
              ltac:(simpl; lia) ltac:(reflexivity)) as (_ & H & _).
  exact H.
Defined.

(** The text of a rendered block in quiet mode with a non-empty value. *)
Lemma renderMessage_text_quiet env reqid msg :
  quiet env = true -> String.length (value msg) <> 0 ->
  text (snd (renderMessage env reqid msg)) =
  text (renderAttributes env reqid msg) ++ "  value size: "
  ++ valueSizeText (snd (uncompressAndFormat env (value msg) (flags msg)))
       (valueSize (value msg))
  ++ NL ++ "}" ++ NL.
Proof.
  intros Hq Hval. rewrite renderMessage_text, Hq.
  apply Nat.eqb_neq in Hval. rewrite Hval.
  to_chars; rewrite <- ?app_assoc; reflexivity.
Qed.

Lemma msgReady_writes_rendered_text env reqid msg out :
  op msg <> mc_op_end ->
  In (SinkWrite out) (fst (msgReady env reqid msg)) ->
  text out = text (snd (renderMessage env reqid msg)).
Proof.
  intros Hop. rewrite (msgReady_unfold env reqid msg Hop). cbn [fst].
  intros Hin. apply in_app_or in Hin as [Hin|Hin].
  - pose proof (renderMessage_no_sink env reqid msg) as HF.
    rewrite Forall_forall in HF. apply HF in Hin. discriminate.
  - unfold filterAndHighlight in Hin.
    destruct (gDataPattern env) as [p|].
    + destruct (matchAll (text (snd (renderMessage env reqid msg))) p);
        cbn -[highlight] in Hin; [contradiction|].
      destruct Hin as [Hin|[Hin|[]]]; [|discriminate].
      injection Hin as <-. exact (text_highlight _ (p0 :: l)).
    + simpl in Hin. destruct Hin as [Hin|[Hin|[]]]; [|discriminate].
      now injection Hin as <-.
Qed.

(** C7. In quiet mode, a message other than the end sentinel
    with a non-empty value renders as its attribute block, the value-size
    line and the closing brace: the value-size line is there and the
    ["  value: "] line is not; whatever is written to the sink has that
    text. *)
Theorem quiet_keeps_value_size_line (env : Env) (reqid : N) (msg : McMsg)
  (Hquiet : quiet env = true) (Hval : String.length (value msg) <> 0)
  (Hop : op msg <> mc_op_end) :
  text (snd (renderMessage env reqid msg)) =
  text (renderAttributes env reqid msg) ++ "  value size: "
  ++ valueSizeText (snd (uncompressAndFormat env (value msg) (flags msg)))
       (valueSize (value msg))
  ++ NL ++ "}" ++ NL
  /\ (forall out, In (SinkWrite out) (fst (msgReady env reqid msg)) ->
        text out = text (snd (renderMessage env reqid msg))).
Proof.
  split.
  - now apply renderMessage_text_quiet.
  - intros out. now apply msgReady_writes_rendered_text.
Qed.

Lemma quiet_keeps_value_size_line_witness :
  text (snd (renderMessage (sampleEnv true None) 1
               (mkMsg mc_op_get mc_res_found "k" 0 0 "abc")))
  = text (renderAttributes (sampleEnv true None) 1
            (mkMsg mc_op_get mc_res_found "k" 0 0 "abc"))
    ++ "  value size: " ++ valueSizeText 6 3 ++ NL ++ "}" ++ NL.
Proof.
  destruct (quiet_keeps_value_size_line (sampleEnv true None) 1
              (mkMsg mc_op_get mc_res_found "k" 0 0 "abc")
              ltac:(reflexivity) ltac:(simpl; lia) ltac:(discriminate))
    as [H _].
  exact H.
Defined.

(** C10. For a message other than the end sentinel, the value
    formatter is called exactly once, with the value and the flags, when
    the value is non-empty, and never otherwise, in quiet mode as well;
    in quiet mode its formatted body is not in the block but its
    uncompressed size decides the value-size line. *)
Theorem formatter_called_once (env : Env) (reqid : N) (msg : McMsg)
  (Hop : op msg <> mc_op_end) :
  filter isFormatterCall (fst (msgReady env reqid msg)) =
  (if String.length (value msg) =? 0 then []
   else [FormatterCall (value msg) (flags msg)])
  /\ (quiet env = true -> String.length (value msg) <> 0 ->
      text (snd (renderMessage env reqid msg)) =
      text (renderAttributes env reqid msg) ++ "  value size: "
      ++ valueSizeText (snd (uncompressAndFormat env (value msg) (flags msg)))
           (valueSize (value msg))
      ++ NL ++ "}" ++ NL).
Proof.
  split.
  - rewrite (msgReady_unfold env reqid msg Hop). cbn [fst].
    rewrite filter_app, renderMessage_events.
    destruct (filterAndHighlight (gDataPattern env)
                (snd (renderMessage env reqid msg)));
      destruct (String.length (value msg) =? 0); reflexivity.
  - apply renderMessage_text_quiet.
Qed.

Lemma formatter_called_once_witness :
  filter isFormatterCall
    (fst (msgReady (sampleEnv true None) 1
            (mkMsg mc_op_get mc_res_found "k" 0 0 "abc")))
  = [FormatterCall "abc" 0].
Proof.
  destruct (formatter_called_once (sampleEnv true None) 1
              (mkMsg mc_op_get mc_res_found "k" 0 0 "abc")
              ltac:(discriminate)) as [H _].
  exact H.
Defined.

(** ** The regular expression search *)

Lemma maxOpt_None (l : list nat) : maxOpt l = None -> l = [].
Proof.
  destruct l as [|x l]; [reflexivity|]. simpl.
  destruct (maxOpt l); discriminate.
Qed.

Lemma maxOpt_some (l : list nat) (n : nat) :
  maxOpt l = Some n -> In n l /\ (forall m, In m l -> m <= n).
Proof.
  revert n; induction l as [|x l IH]; intros n H; simpl in H; [discriminate|].
  destruct (maxOpt l) as [k|] eqn:E.
  - injection H as <-. destruct (IH k eq_refl) as [Hin Hmax].
    split.
    + destruct (Nat.max_spec x k) as [[_ ->]|[_ ->]];
        [right; exact Hin | left; reflexivity].
    + intros m [<-|Hm]; [lia | specialize (Hmax m Hm); lia].
  - injection H as <-. apply maxOpt_None in E. subst l.
    split; [left; reflexivity | intros m [<-|[]]; lia].
Qed.

Lemma matchLengths_star (a : Atom) (r : Regex) (s : list ascii) :
  matchLengths ((a, true) :: r) s =
  (matchLengths r s
   ++ match s with
      | c :: s' => if atomMatches a c
                   then map S (matchLengths ((a, true) :: r) s') else []
      | [] => []
      end)%list.
Proof. destruct s; reflexivity. Qed.

Lemma matchLengths_le (r : Regex) (s : list ascii) (n : nat) :
  In n (matchLengths r s) -> n <= List.length s.
Proof.
  revert s n. induction r as [|[a st] r IH]; intros s n H.
  - destruct H as [<-|[]]. lia.
  - destruct st.
    + revert n H. induction s as [|c s IHs]; intros n H;
        rewrite matchLengths_star in H.
      * rewrite app_nil_r in H. exact (IH _ _ H).
      * apply in_app_or in H as [H|H]; [exact (IH _ _ H)|].
        destruct (atomMatches a c); [|destruct H].
        apply in_map_iff in H as [m [<- Hm]]. apply IHs in Hm. simpl. lia.
    + destruct s as [|c s]; simpl in H; [destruct H|].
      destruct (atomMatches a c); [|destruct H].
      apply in_map_iff in H as [m [<- Hm]]. apply IH in Hm. simpl. lia.
Qed.

Lemma longestAt_some r s nn n :
  longestAt r s nn = Some n ->
  In n (matchLengths r s) /\ (nn = true -> 0 < n)
  /\ (forall m, In m (matchLengths r s) -> nn = false \/ 0 < m -> m <= n).
Proof.
  unfold longestAt. intros H. apply maxOpt_some in H as [Hin Hmax].
  apply filter_In in Hin as [Hin Hf].
  split; [exact Hin|split].
  - intros ->. simpl in Hf. apply Nat.ltb_lt in Hf. exact Hf.
  - intros m Hm Hc. apply Hmax, filter_In. split; [exact Hm|].
    destruct Hc as [->|Hc]; [reflexivity|].
    apply Nat.ltb_lt in Hc. rewrite Hc. apply orb_true_r.
Qed.

Lemma longestAt_none r s nn :
  longestAt r s nn = None ->
  forall m, In m (matchLengths r s) -> nn = true /\ m = 0.
Proof.
  unfold longestAt. intros H m Hm. apply maxOpt_None in H.
  assert (Hf : (negb nn || (0 <? m)) = false).
  { destruct (negb nn || (0 <? m)) eqn:E; [|reflexivity].
    assert (In m []) as [].
    { rewrite <- H. apply filter_In. auto. } }
  apply orb_false_iff in Hf as [H1 H2]. apply Nat.ltb_ge in H2.
  destruct nn; [split; [reflexivity|lia]|discriminate].
Qed.

Lemma longestAt_false_none r s :
  longestAt r s false = None <-> matchLengths r s = [].
Proof.
  split.
  - intros H. destruct (matchLengths r s) as [|m l] eqn:E; [reflexivity|].
    exfalso. destruct (longestAt_none r s false H m) as [Hc _];
      [rewrite E; left; reflexivity | discriminate].
  - intros H. unfold longestAt. rewrite H. reflexivity.
Qed.

Lemma searchFrom_some r s pos nn q n :
  searchFrom r s pos nn = Some (q, n) ->
  exists i, q = pos + i /\ i <= List.length s
    /\ longestAt r (skipn i s) (nn && (i =? 0)) = Some n
    /\ (forall j, j < i -> longestAt r (skipn j s) (nn && (j =? 0)) = None).
Proof.
  revert pos nn. induction s as [|c s IH]; intros pos nn H; simpl in H.
  - destruct (longestAt r [] nn) as [k|] eqn:E; [|discriminate].
    injection H as <- <-. exists 0. simpl. rewrite andb_true_r.
    split; [lia|split; [lia|split; [exact E|intros j Hj; lia]]].
  - destruct (longestAt r (c :: s) nn) as [k|] eqn:E.
    + injection H as <- <-. exists 0. simpl. rewrite andb_true_r.
      split; [lia|split; [lia|split; [exact E|intros j Hj; lia]]].
    + destruct (IH (S pos) false H) as (i & -> & Hi & Hl & Hb).
      exists (S i). simpl. rewrite andb_false_r.
      split; [lia|split; [lia|split; [exact Hl|]]].
      intros [|j] Hj; simpl.
      * rewrite andb_true_r. exact E.
      * rewrite andb_false_r. apply (Hb j). lia.
Qed.

Lemma searchFrom_none r s pos nn :
  searchFrom r s pos nn = None ->
  forall i, i <= List.length s ->
  longestAt r (skipn i s) (nn && (i =? 0)) = None.
Proof.
  revert pos nn. induction s as [|c s IH]; intros pos nn H i Hi; simpl in H.
  - destruct (longestAt r [] nn) eqn:E; [discriminate|].
    simpl in Hi. assert (i = 0) as -> by lia. now rewrite andb_true_r.
  - destruct (longestAt r (c :: s) nn) eqn:E; [discriminate|].
    destruct i as [|i]; simpl.
    + now rewrite andb_true_r.
    + rewrite andb_false_r. simpl in Hi.
      specialize (IH (S pos) false H i ltac:(lia)). exact IH.
Qed.

Lemma searchFrom_none_intro r s pos nn :
  (forall i, i <= List.length s ->
   longestAt r (skipn i s) (nn && (i =? 0)) = None) ->
  searchFrom r s pos nn = None.
Proof.
  revert pos nn. induction s as [|c s IH]; intros pos nn H; simpl.
  - specialize (H 0 ltac:(simpl; lia)). simpl in H.
    rewrite andb_true_r in H. now rewrite H.
  - pose proof (H 0 ltac:(simpl; lia)) as H0. simpl in H0.
    rewrite andb_true_r in H0. rewrite H0.
    apply IH. intros i Hi. specialize (H (S i) ltac:(simpl; lia)).
    simpl in H. rewrite andb_false_r in H. exact H.
Qed.


Lemma iterMatches_cons fuel r t pos nn q n rest :
  pos <= List.length t ->
  iterMatches fuel r t pos nn = (q, n) :: rest ->
  exists fuel', fuel = S fuel'
    /\ rest = iterMatches fuel' r t (q + n) (n =? 0)
    /\ searchFrom r (skipn pos t) pos nn = Some (q, n)
    /\ pos <= q /\ q + n <= List.length t
    /\ longestAt r (skipn q t) (nn && (q =? pos)) = Some n.
Proof.
  intros Hp. destruct fuel as [|fuel']; simpl; [discriminate|].
  destruct (searchFrom r (skipn pos t) pos nn) as [[q' n']|] eqn:E;
    [|discriminate].
  intros H. injection H as <- <- <-.
  exists fuel'. split; [reflexivity|]. split; [reflexivity|].
  split; [reflexivity|].
  destruct (searchFrom_some _ _ _ _ _ _ E) as (i & -> & Hi & Hl & _).
  rewrite skipn_skipn in Hl. rewrite length_skipn in Hi.
  replace (i + pos) with (pos + i) in Hl by lia.
  destruct (longestAt_some _ _ _ _ Hl) as [Hin _].
  apply matchLengths_le in Hin. rewrite length_skipn in Hin.
  assert (Hq : (pos + i =? pos) = (i =? 0)).
  { destruct i as [|i]; [rewrite Nat.add_0_r; apply Nat.eqb_refl|].
    apply Nat.eqb_neq. lia. }
  rewrite Hq. split; [lia|split; [lia|exact Hl]].
Qed.

Lemma iterMatches_sound fuel r t pos nn :
  pos <= List.length t ->
  Forall (fun m => pos <= fst m
                   /\ In (snd m) (matchLengths r (skipn (fst m) t))
                   /\ fst m + snd m <= List.length t)
    (iterMatches fuel r t pos nn).
Proof.
  revert pos nn. induction fuel as [|fuel IH]; intros pos nn Hp; [constructor|].
  destruct (iterMatches (S fuel) r t pos nn) as [|[q n] rest] eqn:E;
    [constructor|].
  destruct (iterMatches_cons _ _ _ _ _ _ _ _ Hp E)
    as (f' & Hf & -> & _ & Hle & Hqn & Hl).
  injection Hf as <-.
  constructor.
  - simpl. split; [exact Hle|split; [apply (longestAt_some _ _ _ _ Hl)|exact Hqn]].
  - eapply Forall_impl; [|apply IH; exact Hqn].
    intros m (H1 & H2 & H3). split; [lia|split; assumption].
Qed.

Lemma iterMatches_leftToRight fuel r t pos nn :
  pos <= List.length t -> leftToRight (iterMatches fuel r t pos nn).
Proof.
  revert pos nn. induction fuel as [|fuel IH]; intros pos nn Hp; [exact I|].
  destruct (iterMatches (S fuel) r t pos nn) as [|[q n] rest] eqn:E;
    [exact I|].
  destruct (iterMatches_cons _ _ _ _ _ _ _ _ Hp E)
    as (f' & Hf & Hrest & _ & Hle & Hqn & Hl).
  injection Hf as <-.
  pose proof (IH (q + n) (n =? 0) Hqn) as IHr. rewrite <- Hrest in IHr.
  destruct rest as [|[q2 n2] rest']; [exact I|].
  symmetry in Hrest.
  destruct (iterMatches_cons _ _ _ _ _ _ _ _ Hqn Hrest)
    as (_ & _ & _ & _ & Hle2 & _ & Hl2).
  split; [lia|split; [|exact IHr]].
  destruct (Nat.eq_dec q q2) as [<-|Hne]; [|lia].
  exfalso. assert (n = 0) as -> by lia.
  rewrite Nat.add_0_r, Nat.eqb_refl in Hl2. cbn [Nat.eqb andb] in Hl2.
  destruct (longestAt_some _ _ _ _ Hl2) as [Hin2 [Hpos2 _]].
  specialize (Hpos2 (Nat.eqb_refl q)).
  destruct (longestAt_some _ _ _ _ Hl) as [_ [Hnn Hmax]].
  destruct (nn && (q =? pos)).
  - specialize (Hnn eq_refl). lia.
  - specialize (Hmax n2 Hin2 (or_introl eq_refl)). lia.
Qed.

Lemma iterMatches_done (fuel : nat) (r : Regex) (t : list ascii) (pos : nat)
  (nn : bool) :
  pos <= List.length t ->
  2 * (List.length t - pos) + (if nn then 1 else 2) <= fuel ->
  iterDone r t pos nn (iterMatches fuel r t pos nn).
Proof.
  revert pos nn. induction fuel as [|fuel IH]; intros pos nn Hp Hf.
  - destruct nn; lia.
  - destruct (iterMatches (S fuel) r t pos nn) as [|[q n] rest] eqn:E.
    + simpl in E.
      destruct (searchFrom r (skipn pos t) pos nn) as [[q n]|] eqn:F;
        [discriminate|].
      exact F.
    + destruct (iterMatches_cons _ _ _ _ _ _ _ _ Hp E)
        as (f' & Hf' & -> & Hs & Hle & Hqn & Hl).
      injection Hf' as <-.
      split; [exact Hs|]. apply IH; [exact Hqn|].
      destruct (searchFrom_some _ _ _ _ _ _ Hs) as (i & Hqi & _ & Hli & _).
      destruct n as [|n]; cbn [Nat.eqb].
      * destruct (Nat.eq_dec i 0) as [->|Hi].
        -- rewrite Nat.add_0_r in Hqi. subst q.
           destruct nn; [|lia].
           destruct (longestAt_some _ _ _ _ Hli) as [_ [Hpos _]].
           specialize (Hpos eq_refl). lia.
        -- destruct nn; lia.
      * destruct nn; lia.
Qed.

Lemma matchAll_done (text : string) (r : Regex) :
  iterDone r (list_ascii_of_string text) 0 false (matchAll text r).
Proof.
  unfold matchAll. apply iterMatches_done; [lia|]. cbn -[Nat.mul]. lia.
Qed.

Lemma matchAll_sound (text : string) (r : Regex) :
  Forall (fun m => In (snd m)
                      (matchLengths r (skipn (fst m) (list_ascii_of_string text)))
                   /\ fst m + snd m <= String.length text)
    (matchAll text r).
Proof.
  unfold matchAll. eapply Forall_impl; [|apply iterMatches_sound; lia].
  intros m (_ & H2 & H3). rewrite las_length in H3. split; assumption.
Qed.

Lemma matchAll_nil (text : string) (r : Regex) :
  matchAll text r = [] <->
  (forall i, i <= String.length text ->
   matchLengths r (skipn i (list_ascii_of_string text)) = []).
Proof.
  pose proof (matchAll_done text r) as D.
  rewrite <- las_length. split.
  - intros E i Hi. rewrite E in D. cbn [iterDone skipn] in D.
    pose proof (searchFrom_none _ _ _ _ D i Hi) as H.
    cbn [andb] in H. apply longestAt_false_none. exact H.
  - intros H. destruct (matchAll text r) as [|[q n] rest] eqn:E;
      [reflexivity|].
    exfalso. destruct D as [D _]. cbn [skipn] in D.
    apply searchFrom_some in D as (i & -> & Hi & Hl & _).
    cbn [andb] in Hl. apply longestAt_some in Hl as [Hin _].
    rewrite H in Hin; [destruct Hin|exact Hi].
Qed.

(** ** Literal patterns *)

Lemma isSpecial_false (a : ascii) :
  isSpecial a = false ->
  Ascii.eqb a "*" = false /\ Ascii.eqb a "." = false
  /\ Ascii.eqb a "\" = false.
Proof.
  cbn [isSpecial existsb]. intros H.
  repeat rewrite orb_false_iff in H. tauto.
Qed.

Lemma parsePieces_literal (l : list ascii) (acc : list Piece) :
  forallb (fun a => negb (isSpecial a)) l = true ->
  parsePieces l acc = Some (rev acc ++ map (fun a => (AChar a, false)) l)%list.
Proof.
  revert acc. induction l as [|a l IH]; intros acc H.
  - simpl. now rewrite app_nil_r.
  - cbn [forallb] in H. apply andb_prop in H as [Ha H].
    apply negb_true_iff in Ha.
    destruct (isSpecial_false a Ha) as (H1 & H2 & H3).
    cbn [parsePieces]. rewrite H1, H2, H3, Ha, (IH _ H).
    cbn [rev map]. now rewrite <- app_assoc.
Qed.

Lemma parseBRE_literal (w : string) :
  forallb (fun a => negb (isSpecial a)) (list_ascii_of_string w) = true ->
  parseBRE w = Some (literalRegex w).
Proof.
  intros H. unfold parseBRE, literalRegex. now rewrite parsePieces_literal.
Qed.

Lemma matchLengths_literal (l s : list ascii) :
  matchLengths (map (fun a => (AChar a, false)) l) s =
  if prefixb l s then [List.length l] else [].
Proof.
  revert s. induction l as [|a l IH]; intros s; [reflexivity|].
  destruct s as [|b s]; [reflexivity|].
  cbn [map matchLengths prefixb atomMatches].
  destruct (Ascii.eqb a b); cbn [andb]; [|reflexivity].
  rewrite IH. destruct (prefixb l s); reflexivity.
Qed.

Lemma longestAt_literal (l s : list ascii) (nn : bool) :
  l <> [] ->
  longestAt (map (fun a => (AChar a, false)) l) s nn =
  if prefixb l s then Some (List.length l) else None.
Proof.
  intros Hl. unfold longestAt. rewrite matchLengths_literal.
  destruct (prefixb l s); [|reflexivity].
  destruct l as [|a l]; [contradiction|]. destruct nn; reflexivity.
Qed.

(** The first match of a literal pattern is its leftmost occurrence. *)
Lemma matchAll_literal_first (t w : string) (q : nat) :
  w <> "" ->
  occursAt w t q = true ->
  exists q0 rest,
    matchAll t (literalRegex w) = (q0, String.length w) :: rest
    /\ q0 <= q /\ occursAt w t q0 = true.
Proof.
  intros Hw Hocc. unfold occursAt in *.
  assert (Hl : list_ascii_of_string w <> []).
  { destruct w; [contradiction|discriminate]. }
  assert (Hq : q <= List.length (list_ascii_of_string t)).
  { destruct (Nat.le_gt_cases q (List.length (list_ascii_of_string t)))
      as [H|H]; [exact H|].
    rewrite skipn_all2 in Hocc by lia.
    destruct (list_ascii_of_string w); [contradiction|discriminate]. }
  pose proof (matchAll_done t (literalRegex w)) as D.
  unfold literalRegex in *.
  destruct (matchAll t (map (fun a => (AChar a, false))
                          (list_ascii_of_string w))) as [|[q0 n] rest] eqn:E.
  - exfalso. cbn [iterDone skipn] in D.
    pose proof (searchFrom_none _ _ _ _ D q Hq) as H.
    rewrite longestAt_literal in H by exact Hl.
    rewrite Hocc in H. discriminate.
  - destruct D as [D _]. cbn [skipn] in D.
    apply searchFrom_some in D as (i & -> & Hi & Hli & Hbefore).
    rewrite longestAt_literal in Hli by exact Hl.
    destruct (prefixb (list_ascii_of_string w)
                (skipn i (list_ascii_of_string t))) eqn:P; [|discriminate].
    injection Hli as <-.
    assert (Hiq : i <= q).
    { destruct (Nat.le_gt_cases i q) as [H|H]; [exact H|].
      exfalso. specialize (Hbefore q H).
      rewrite longestAt_literal in Hbefore by exact Hl.
      rewrite Hocc in Hbefore. discriminate. }
    exists i, rest. rewrite las_length.
    split; [reflexivity|split; [lia|exact P]].
Qed.

(** ** Colors after highlighting *)

Lemma nth_error_recolorFrom i off len c l j :
  nth_error (recolorFrom i off len c l) j =
  option_map
    (fun p => (fst p, if (off <=? i + j) && (i + j <? off + len)
                      then c else snd p))
    (nth_error l j).
Proof.
  revert i j. induction l as [|[a c0] l IH]; intros i j;
    [destruct j; reflexivity|].
  destruct j as [|j]; cbn [recolorFrom nth_error].
  - now rewrite Nat.add_0_r.
  - rewrite IH. now replace (S i + j) with (i + S j) by lia.
Qed.

Lemma colorAt_setFg s off len c i :
  colorAt (setFg s off len c) i =
  option_map (fun c0 => if (off <=? i) && (i <? off + len) then c else c0)
    (colorAt s i).
Proof.
  unfold colorAt, setFg. cbn [ss_chars]. rewrite nth_error_recolorFrom.
  destruct (nth_error (ss_chars s) i); reflexivity.
Qed.

Lemma colorAt_highlight_keep s ms i :
  colorAt s i = Some matchColor -> colorAt (highlight s ms) i = Some matchColor.
Proof.
  unfold highlight. revert s. induction ms as [|m ms IH]; intros s H;
    [exact H|].
  cbn [fold_left]. apply IH. rewrite colorAt_setFg, H. cbn [option_map].
  destruct ((fst m <=? i) && (i <? fst m + snd m)); reflexivity.
Qed.

Lemma length_text (s : StyledString) :
  String.length (text s) = List.length (ss_chars s).
Proof. now rewrite <- las_length, las_text, length_map. Qed.

Lemma highlightedRange_first s q len rest :
  q + len <= List.length (ss_chars s) ->
  highlightedRange (highlight s ((q, len) :: rest)) q len = true.
Proof.
  intros Hlen. unfold highlightedRange. apply forallb_forall.
  intros i Hi. apply in_seq in Hi.
  assert (Hb : ((q <=? i) && (i <? q + len)) = true).
  { apply andb_true_intro. split; [apply Nat.leb_le|apply Nat.ltb_lt]; lia. }
  assert (Hc : colorAt (setFg s q len matchColor) i = Some matchColor).
  { rewrite colorAt_setFg, Hb. unfold colorAt.
    destruct (nth_error (ss_chars s) i) eqn:E; [reflexivity|].
    apply nth_error_None in E. lia. }
  change (highlight s ((q, len) :: rest))
    with (highlight (setFg s q len matchColor) rest).
  rewrite (colorAt_highlight_keep _ _ _ Hc). reflexivity.
Qed.

(** C5. [matchAll] lists the matches of the token iterator, and nothing
    else: every element is the leftmost-longest match found by the next
    search (restarted at the end of the previous match, an empty match
    there being refused after an empty match), the list stops exactly
    when a search fails, the matches do not overlap and start strictly
    left to right, each pair is an offset and a match length inside the
    text, and the list is empty exactly when the pattern matches at no
    position. On ["banana"] the pattern ["a"] gives
    [[(1,1); (3,1); (5,1)]]. *)
Theorem matchAll_left_to_right :
  parseBRE "a" = Some (literalRegex "a")
  /\ matchAll "banana" (literalRegex "a") = [(1, 1); (3, 1); (5, 1)]
  /\ forall (text : string) (r : Regex),
       iterDone r (list_ascii_of_string text) 0 false (matchAll text r)
       /\ leftToRight (matchAll text r)
       /\ Forall (fun m =>
            In (snd m)
              (matchLengths r (skipn (fst m) (list_ascii_of_string text)))
            /\ fst m + snd m <= String.length text) (matchAll text r)
       /\ (matchAll text r = [] <->
           (forall i, i <= String.length text ->
            matchLengths r (skipn i (list_ascii_of_string text)) = [])).
Proof.
  split; [reflexivity|split; [vm_compute; reflexivity|]].
  intros text r.
  split; [apply matchAll_done|].
  split; [unfold matchAll; apply iterMatches_leftToRight; lia|].
  split; [apply matchAll_sound|apply matchAll_nil].
Qed.

(** C6 (counterexample). The content pattern is a basic regular
    expression, not a literal: with the pattern ["a*"] and a key ["a*"],
    the only occurrence of ["a*"] in the block (at byte 8, in the header)
    is not fully highlighted, since the pattern matches the single byte
    ["a"] there and the byte ["*"] keeps the header color. *)
Lemma literal_star_counterexample :
  parseBRE "a*" = Some [(AChar "a", true)]
  /\ occurrences "a*"
       (text (snd (renderMessage (sampleEnv false (parseBRE "a*")) 1
                     (mkMsg mc_op_get mc_res_unknown "a*" 0 0 "")))) = [8]
  /\ match fst (msgReady (sampleEnv false (parseBRE "a*")) 1
                  (mkMsg mc_op_get mc_res_unknown "a*" 0 0 "")) with
     | [SinkWrite out; SinkFlush] =>
         occurrences "a*" (text out) = [8]
         /\ highlightedRange out 8 2 = false
         /\ colorAt out 9 = Some headerColor
     | _ => False
     end.
Proof.
  split; [reflexivity|split; [vm_compute; reflexivity|]].
  vm_compute. split; [reflexivity|split; reflexivity].
Qed.

(** C6 (amended). Let [w] be a non-empty string without special
    characters of the basic regular expressions, configured as the
    content pattern. If [w] occurs at byte [q] anywhere in the rendered
    block of a message other than the end sentinel (header and flag
    descriptions included: the pattern is matched against the whole
    text), the block is written, and its first match is an occurrence of
    [w] at a byte [q0 <= q] whose whole byte range has the match color. *)
Theorem literal_pattern_highlights_occurrence (env : Env) (reqid : N)
  (msg : McMsg) (w : string) (q : nat)
  (Hop : op msg <> mc_op_end)
  (Hw : w <> "")
  (Hlit : forallb (fun a => negb (isSpecial a)) (list_ascii_of_string w) = true)
  (Hpat : gDataPattern env = parseBRE w)
  (Hocc : occursAt w (text (snd (renderMessage env reqid msg))) q = true) :
  parseBRE w = Some (literalRegex w)
  /\ exists q0 out,
       fst (msgReady env reqid msg) =
       (fst (renderMessage env reqid msg) ++ [SinkWrite out; SinkFlush])%list
       /\ text out = text (snd (renderMessage env reqid msg))
       /\ q0 <= q
       /\ occursAt w (text out) q0 = true
       /\ (exists rest,
             matchAll (text out) (literalRegex w)
             = (q0, String.length w) :: rest)
       /\ highlightedRange out q0 (String.length w) = true.
Proof.
  assert (Hr : parseBRE w = Some (literalRegex w)) by
    (apply parseBRE_literal; exact Hlit).
  split; [exact Hr|].
  rewrite Hr in Hpat.
  destruct (matchAll_literal_first _ _ _ Hw Hocc) as (q0 & rest & Hm & Hle & Hq0).
  exists q0, (highlight (snd (renderMessage env reqid msg))
                ((q0, String.length w) :: rest)).
  split.
  { rewrite (msgReady_unfold env reqid msg Hop). cbn [fst].
    unfold filterAndHighlight. rewrite Hpat, Hm. reflexivity. }
  pose proof (text_highlight (snd (renderMessage env reqid msg))
                ((q0, String.length w) :: rest)) as Ht.
  rewrite Ht, Hm.
  split; [reflexivity|split; [exact Hle|split; [exact Hq0|split; [exists rest; reflexivity|]]]].
  apply highlightedRange_first.
  pose proof (matchAll_sound (text (snd (renderMessage env reqid msg)))
                (literalRegex w)) as Hs.
  rewrite Hm in Hs. inversion Hs as [|? ? [_ Hb] _]. cbn [fst snd] in Hb.
  rewrite length_text in Hb. exact Hb.
Qed.

Lemma literal_pattern_highlights_occurrence_witness :
  parseBRE "found" = Some (literalRegex "found")
  /\ occursAt "found"
       (text (snd (renderMessage (sampleEnv false (parseBRE "found")) 1
                     (mkMsg mc_op_get mc_res_found "k" 0 0 "")))) 15 = true.
Proof.
  split; [|vm_compute; reflexivity].
  destruct (literal_pattern_highlights_occurrence
              (sampleEnv false (parseBRE "found")) 1
              (mkMsg mc_op_get mc_res_found "k" 0 0 "") "found" 15
              ltac:(discriminate) ltac:(discriminate) ltac:(reflexivity)
              ltac:(reflexivity) ltac:(vm_compute; reflexivity)) as [H _].
  exact H.
Defined.

(* ================================================================== *)
(** * Further properties of mcpiper.cpp *)

(** ** Escaping of the key *)

Lemma unbackslashify_char (a : ascii) (rest : string) :
  unbackslashify (backslashifyChar a ++ rest) =
  option_map (String a) (unbackslashify rest).
Proof. destruct a as [[] [] [] [] [] [] [] []]; reflexivity. Qed.

Lemma printable_app (a b : string) :
  printableString (a ++ b) = printableString a && printableString b.
Proof. unfold printableString. now rewrite las_app, forallb_app. Qed.

Lemma printable_backslashifyChar (a : ascii) :
  printableString (backslashifyChar a) = true.
Proof. destruct a as [[] [] [] [] [] [] [] []]; vm_compute; reflexivity. Qed.

Lemma printable_backslashify (s : string) :
  printableString (backslashify s) = true.
Proof.
  induction s as [|a s IH]; [reflexivity|].
  cbn [backslashify]. now rewrite printable_app, printable_backslashifyChar, IH.
Qed.

Lemma printable_concat (sep : string) (l : list string) :
  printableString sep = true ->
  Forall (fun s => printableString s = true) l ->
  printableString (String.concat sep l) = true.
Proof.
  intros Hsep Hl. induction Hl as [|x l Hx Hl IH]; [reflexivity|].
  destruct l as [|y l]; [exact Hx|].
  cbn [String.concat]. cbn [String.concat] in IH.
  now rewrite !printable_app, Hx, Hsep, IH.
Qed.

Lemma printable_no_newline (s : string) :
  printableString s = true -> ~ In NLchar (list_ascii_of_string s).
Proof.
  unfold printableString. intros H Hin.
  rewrite forallb_forall in H. specialize (H _ Hin). discriminate.
Qed.

(** X1. The header of every message ([serializeMessageHeader]) is made of
    printable ASCII bytes only, so it holds no newline: whatever bytes the
    key holds, the header stays on one line of the block. *)
Theorem serializeMessageHeader_printable (msg : McMsg) :
  printableString (serializeMessageHeader msg) = true
  /\ ~ In NLchar (list_ascii_of_string (serializeMessageHeader msg)).
Proof.
  assert (H : printableString (serializeMessageHeader msg) = true).
  { rewrite serializeMessageHeader_fields. apply printable_concat;
      [reflexivity|].
    assert (Ho : printableString (mc_op_to_string (op msg)) = true)
      by (destruct (op msg); reflexivity).
    assert (Hr : printableString (mc_res_to_string (result msg)) = true)
      by (destruct (result msg); reflexivity).
    pose proof (printable_backslashify (key msg)) as Hk.
    unfold headerFields.
    destruct (mc_op_beq (op msg) mc_op_unknown);
      destruct (mc_res_beq (result msg) mc_res_unknown);
      destruct (String.length (key msg) =? 0); cbn [app];
      repeat (apply Forall_cons; [assumption|]); apply Forall_nil. }
  split; [exact H|]. now apply printable_no_newline.
Qed.

(** X2. [backslashify], which writes the key into the header, loses
    nothing: reading the escapes back gives the key again. *)
Theorem backslashify_roundtrip (k : string) :
  unbackslashify (backslashify k) = Some k.
Proof.
  induction k as [|a k IH]; [reflexivity|].
  cbn [backslashify]. now rewrite unbackslashify_char, IH.
Qed.

(** ** Hexadecimal fields *)

Lemma hexVal_hexDigit (d : N) : (d < 16)%N -> hexVal (hexDigit d) = Some d.
Proof.
  intros H. rewrite <- (N2Nat.id d).
  assert (Hk : (N.to_nat d < 16)%nat) by lia.
  generalize (N.to_nat d) Hk. clear. intros k Hk.
  do 16 (destruct k as [|k]; [reflexivity|]). lia.
Qed.

Lemma size_nat_bound (n : N) : (n < 2 ^ N.of_nat (N.size_nat n))%N.
Proof.
  destruct n as [|p]; [reflexivity|]. cbn [N.size_nat].
  induction p as [p IH|p IH|]; cbn [Pos.size_nat];
    rewrite ?Nat2N.inj_succ, ?N.pow_succ_r'; lia.
Qed.

Lemma hexDigits_spec (f : nat) (n : N) (acc : string) :
  (n < 16 ^ N.of_nat f)%N -> (0 < f)%nat ->
  hexDecodeFrom (list_ascii_of_string (hexDigits f n acc)) 0 =
  hexDecodeFrom (list_ascii_of_string acc) n
  /\ exists d rest, hexDigits f n acc = String (hexDigit d) rest
                    /\ (d < 16)%N /\ (n <> 0 -> d <> 0)%N.
Proof.
  revert n acc. induction f as [|f IH]; intros n acc Hn Hf; [lia|].
  cbn [hexDigits].
  assert (Hmod : (n mod 16 < 16)%N) by (apply N.mod_lt; lia).
  pose proof (N.div_mod n 16 ltac:(lia)) as Hdm.
  destruct (N.div n 16 =? 0)%N eqn:E.
  - apply N.eqb_eq in E.
    cbn [list_ascii_of_string hexDecodeFrom].
    rewrite hexVal_hexDigit by exact Hmod.
    split.
    + f_equal. lia.
    + exists (n mod 16)%N, acc. split; [reflexivity|split; [exact Hmod|lia]].
  - apply N.eqb_neq in E.
    assert (Hf' : (0 < f)%nat).
    { destruct f; [|lia]. exfalso. simpl in Hn.
      apply E. apply N.div_small. lia. }
    assert (Hq : (n / 16 < 16 ^ N.of_nat f)%N).
    { apply N.Div0.div_lt_upper_bound.
      rewrite Nat2N.inj_succ, N.pow_succ_r' in Hn. lia. }
    destruct (IH (n / 16)%N (String (hexDigit (n mod 16)) acc) Hq Hf')
      as [IH1 (d & rest & Hd & Hd16 & Hdnz)].
    split.
    + rewrite IH1. cbn [list_ascii_of_string hexDecodeFrom].
      rewrite hexVal_hexDigit by exact Hmod. f_equal. lia.
    + exists d, rest. split; [exact Hd|split; [exact Hd16|]].
      intros _. apply Hdnz. exact E.
Qed.

(** X3. [folly::sformat("0x{:x}", n)], with which [msgReady] prints the
    request id and the flags, writes ["0x"] and then the canonical
    lowercase hexadecimal digits of [n]: they read back as [n], there is no
    leading zero unless [n = 0], and two different numbers never print
    the same. *)
Theorem formatHex_canonical (n : N) :
  (exists d, formatHex n = "0x" ++ d
             /\ hexDecode d = Some n
             /\ (n <> 0%N -> exists c rest, d = String c rest /\ c <> "0"%char))
  /\ (forall m, formatHex m = formatHex n -> m = n).
Proof.
  assert (Hspec : forall n, (exists d, formatHex n = "0x" ++ d
             /\ hexDecode d = Some n
             /\ (n <> 0%N -> exists c rest, d = String c rest /\ c <> "0"%char))).
  { clear n. intros n.
    assert (Hb : (n < 16 ^ N.of_nat (S (N.size_nat n)))%N).
    { pose proof (size_nat_bound n) as H1.
      assert (H2 : (2 ^ N.of_nat (N.size_nat n)
                    <= 16 ^ N.of_nat (N.size_nat n))%N)
        by (apply N.pow_le_mono_l; lia).
      rewrite Nat2N.inj_succ, N.pow_succ_r'.
      pose proof (N.pow_nonzero 16 (N.of_nat (N.size_nat n)) ltac:(lia)).
      lia. }
    destruct (hexDigits_spec (S (N.size_nat n)) n "" Hb ltac:(lia))
      as [Hdec (d & rest & Hd & Hd16 & Hdnz)].
    exists (hexDigits (S (N.size_nat n)) n ""). split; [reflexivity|].
    split.
    - unfold hexDecode. rewrite Hd in Hdec |- *. exact Hdec.
    - intros Hn. exists (hexDigit d), rest. split; [exact Hd|].
      intros Hc. specialize (Hdnz Hn).
      pose proof (hexVal_hexDigit d Hd16) as Hv. rewrite Hc in Hv.
      injection Hv as Hv. lia. }
  split; [apply Hspec|].
  intros m Hm.
  destruct (Hspec m) as (dm & Em & Dm & _), (Hspec n) as (dn & En & Dn & _).
  rewrite Em, En in Hm. injection Hm as Hm. subst dm. congruence.
Qed.

(** ** Layout of the rendered block *)

Lemma colorize_app (a b : string) (c : Color) :
  colorize (a ++ b) c = (colorize a c ++ colorize b c)%list.
Proof. unfold colorize. now rewrite las_app, map_app. Qed.

Lemma ss_eta (s : StyledString) : s = mkStyledString (ss_chars s) (ss_stack s).
Proof. now destruct s. Qed.

Lemma concat_prefixJoin (d : string) (ds : list string) :
  String.concat ", " (d :: ds) = d ++ prefixJoin ds.
Proof.
  revert d. induction ds as [|e ds IH]; intros d.
  - cbn [String.concat prefixJoin]. now rewrite sapp_nil_r.
  - change (String.concat ", " (d :: e :: ds))
      with (d ++ ", " ++ String.concat ", " (e :: ds)).
    rewrite IH. reflexivity.
Qed.

Lemma appendFlagDescriptions_fold (ds : list string) (o : StyledString) :
  fold_left
    (fun (acc : StyledString * bool) (s : string) =>
       let (out, first) := acc in
       let out := if first then out else append out ", " in
       (append out s, false))
    ds (o, false) =
  (mkStyledString (ss_chars o ++ colorize (prefixJoin ds) (currentColor o))
     (ss_stack o), false).
Proof.
  revert o. induction ds as [|d ds IH]; intros o.
  - cbn. now rewrite app_nil_r, <- ss_eta.
  - cbn [fold_left]. rewrite IH. unfold append, appendColored, currentColor.
    cbn [ss_chars ss_stack prefixJoin]. f_equal. f_equal.
    now rewrite !colorize_app, !app_assoc.
Qed.

Lemma appendFlagDescriptions_eq (out : StyledString) (ds : list string) :
  appendFlagDescriptions out ds =
  mkStyledString
    (ss_chars out ++ colorize (" [" ++ String.concat ", " ds ++ "]") attrColor)
    (ss_stack out).
Proof.
  unfold appendFlagDescriptions. destruct ds as [|d ds].
  - cbn [fold_left String.concat]. unfold popAppendColor, pushBack, append,
      appendColored, pushAppendColor, currentColor.
    cbn [ss_chars ss_stack tl]. f_equal.
    rewrite !colorize_app, !app_assoc, app_nil_r. reflexivity.
  - cbn [fold_left]. rewrite appendFlagDescriptions_fold.
    rewrite concat_prefixJoin. unfold popAppendColor, pushBack, append,
      appendColored, pushAppendColor, currentColor.
    cbn [ss_chars ss_stack tl]. f_equal.
    rewrite !colorize_app, !app_assoc. reflexivity.
Qed.

Lemma renderAttributes_eq env reqid msg :
  renderAttributes env reqid msg =
  mkStyledString (attributesLayout (describeFlags env (flags msg)) reqid msg) [].
Proof.
  unfold renderAttributes, attributesLayout.
  destruct (String.length (serializeMessageHeader msg) =? 0);
  destruct (N.eqb (flags msg) 0);
  destruct (describeFlags env (flags msg)) as [|d ds];
  destruct (N.eqb (exptime msg) 0);
  rewrite ?appendFlagDescriptions_eq;
  unfold pushBack, append, appendColored, currentColor;
  cbn [ss_chars ss_stack ss_empty app];
  rewrite <- ?app_assoc; reflexivity.
Qed.

Lemma renderMessage_eq env reqid msg :
  snd (renderMessage env reqid msg) =
  mkStyledString
    (attributesLayout (describeFlags env (flags msg)) reqid msg
     ++ valueLayout env msg ++ colorize ("}" ++ NL) dataOpColor) [].
Proof.
  unfold renderMessage. rewrite renderAttributes_eq.
  unfold renderValue, valueLayout.
  destruct (String.length (value msg) =? 0).
  - reflexivity.
  - unfold callUncompressAndFormat, bind, emit, ret; cbn [fst snd].
    destruct (uncompressAndFormat env (value msg) (flags msg)) as [fv u].
    cbn [fst snd]. destruct (quiet env); cbn [negb];
      unfold pushBack, append, appendColored, appendStyled, currentColor;
      cbn [ss_chars ss_stack]; rewrite <- ?app_assoc; reflexivity.
Qed.

Lemma length_colorize (s : string) (c : Color) :
  List.length (colorize s c) = String.length s.
Proof. unfold colorize. now rewrite length_map, las_length. Qed.

Lemma colorAt_app_colorize (l : list (ascii * Color)) (st : list Color)
  (s : string) (c : Color) (i : nat) :
  List.length l <= i < List.length l + String.length s ->
  colorAt (mkStyledString (l ++ colorize s c) st) i = Some c.
Proof.
  intros H. unfold colorAt. cbn [ss_chars].
  rewrite nth_error_app2 by lia. unfold colorize. rewrite nth_error_map.
  destruct (nth_error (list_ascii_of_string s) (i - List.length l)) eqn:E;
    [reflexivity|].
  apply nth_error_None in E. rewrite las_length in E. lia.
Qed.

Lemma attributesLayout_frame ds reqid msg :
  exists mid, attributesLayout ds reqid msg =
    (colorize ("{" ++ NL) dataOpColor ++ mid ++ [(NLchar, DEFAULT)])%list.
Proof.
  unfold attributesLayout. cbv zeta.
  eexists. f_equal. rewrite !app_assoc. reflexivity.
Qed.

Lemma valueLayout_end env msg :
  valueLayout env msg = [] \/
  exists pre, valueLayout env msg = (pre ++ [(NLchar, DEFAULT)])%list.
Proof.
  unfold valueLayout. destruct (String.length (value msg) =? 0); [now left|].
  right. destruct (uncompressAndFormat env (value msg) (flags msg)).
  eexists. rewrite !app_assoc. reflexivity.
Qed.

(** X4. The flag descriptions (lines 190-207) are written as [" ["], the
    descriptions separated by [", "], and ["]"], all in [attrColor]; the
    bytes already written keep their colors, and the append color pushed
    for them is popped again, so the stack of append colors is as before. *)
Theorem appendFlagDescriptions_colors (out : StyledString) (ds : list string) :
  ss_stack (appendFlagDescriptions out ds) = ss_stack out
  /\ text (appendFlagDescriptions out ds)
     = text out ++ " [" ++ String.concat ", " ds ++ "]"
  /\ firstn (List.length (ss_chars out))
       (ss_chars (appendFlagDescriptions out ds)) = ss_chars out
  /\ (forall i, List.length (ss_chars out) <= i
                < List.length (ss_chars (appendFlagDescriptions out ds)) ->
       colorAt (appendFlagDescriptions out ds) i = Some attrColor).
Proof.
  rewrite appendFlagDescriptions_eq. split; [reflexivity|]. split.
  { exact (text_appendColored out _ attrColor). }
  split.
  - cbn [ss_chars]. rewrite firstn_app, firstn_all, Nat.sub_diag.
    cbn [firstn]. apply app_nil_r.
  - intros i Hi. cbn [ss_chars] in Hi. rewrite length_app, length_colorize in Hi.
    apply colorAt_app_colorize. exact Hi.
Qed.

(** X5. The attribute part of a block (lines 174-214): ["{"] and a newline
    in [dataOpColor]; if the header is not empty, two spaces in the default
    color and the header in [headerColor]; the labels ["reqid: "] and
    ["flags: "] (each on a new line, indented by two spaces) in
    [msgAttrColor], each followed by its hexadecimal value in
    [dataValueColor]; the bracketed flag descriptions in [attrColor] when the
    flags are not 0 and the policy describes them; the ["exptime: "] line
    when the expiration time is not 0; a newline in the default color. No
    append color is left pushed. *)
Theorem renderAttributes_layout (env : Env) (reqid : N) (msg : McMsg) :
  ss_chars (renderAttributes env reqid msg)
  = attributesLayout (describeFlags env (flags msg)) reqid msg
  /\ ss_stack (renderAttributes env reqid msg) = [].
Proof. rewrite renderAttributes_eq. split; reflexivity. Qed.

(** X6. Every rendered block is framed: it starts with ["{"] and a newline
    in [dataOpColor], its last line before the closing one ends with a
    newline in the default color, it ends with ["}"] and a newline in
    [dataOpColor], and it leaves no append color pushed. *)
Theorem renderMessage_frame (env : Env) (reqid : N) (msg : McMsg) :
  ss_stack (snd (renderMessage env reqid msg)) = []
  /\ exists mid,
       ss_chars (snd (renderMessage env reqid msg)) =
       (colorize ("{" ++ NL) dataOpColor ++ mid ++ [(NLchar, DEFAULT)]
        ++ colorize ("}" ++ NL) dataOpColor)%list.
Proof.
  rewrite renderMessage_eq. split; [reflexivity|]. cbn [ss_chars].
  destruct (attributesLayout_frame (describeFlags env (flags msg)) reqid msg)
    as [a Ha].
  rewrite Ha. destruct (valueLayout_end env msg) as [Hv|[b Hv]]; rewrite Hv.
  - exists a. rewrite <- !app_assoc. reflexivity.
  - exists (a ++ [(NLchar, DEFAULT)] ++ b)%list.
    rewrite <- !app_assoc. reflexivity.
Qed.

(** X7. For a message with a value, the block ends with the value size
    text in [dataValueColor], then (unless quiet) a new line labelled
    ["value: "] in [msgAttrColor] followed by the formatter's output with
    its own colors, unchanged, then a newline in the default color and the
    closing line. *)
Theorem formatted_value_verbatim (env : Env) (reqid : N) (msg : McMsg) :
  value msg <> "" ->
  exists pre,
    ss_chars (snd (renderMessage env reqid msg)) =
    (pre
     ++ colorize
          (valueSizeText (snd (uncompressAndFormat env (value msg) (flags msg)))
             (valueSize (value msg))) dataValueColor
     ++ (if quiet env then []
         else colorize (NL ++ "  value: ") msgAttrColor
              ++ ss_chars (fst (uncompressAndFormat env (value msg) (flags msg))))
     ++ [(NLchar, DEFAULT)] ++ colorize ("}" ++ NL) dataOpColor)%list.
Proof.
  intros Hv. rewrite renderMessage_eq. cbn [ss_chars]. unfold valueLayout.
  destruct (String.length (value msg) =? 0) eqn:E.
  { apply Nat.eqb_eq in E. destruct (value msg); [contradiction|discriminate]. }
  destruct (uncompressAndFormat env (value msg) (flags msg)) as [fv u].
  cbn [fst snd].
  exists (attributesLayout (describeFlags env (flags msg)) reqid msg
          ++ colorize "  value size: " msgAttrColor)%list.
  rewrite <- !app_assoc. reflexivity.
Qed.

Lemma formatted_value_verbatim_witness :
  exists pre,
    ss_chars (snd (renderMessage (sampleEnv false None) 0
                     (mkMsg mc_op_get mc_res_found "k" 0 0 "v"))) =
    (pre
     ++ colorize
          (valueSizeText (snd (uncompressAndFormat (sampleEnv false None) "v" 0))
             (valueSize "v")) dataValueColor
     ++ (if quiet (sampleEnv false None) then []
         else colorize (NL ++ "  value: ") msgAttrColor
              ++ ss_chars (fst (uncompressAndFormat (sampleEnv false None) "v" 0)))
     ++ [(NLchar, DEFAULT)] ++ colorize ("}" ++ NL) dataOpColor)%list.
Proof.
  exact (formatted_value_verbatim (sampleEnv false None) 0
           (mkMsg mc_op_get mc_res_found "k" 0 0 "v") ltac:(discriminate)).
Defined.

(** ** Filtering and highlighting of the written blocks *)

Lemma colorAt_highlight s ms i :
  colorAt (highlight s ms) i =
  option_map (fun c => if inMatch ms i then matchColor else c) (colorAt s i).
Proof.
  unfold highlight, inMatch. revert s. induction ms as [|m ms IH]; intros s.
  - cbn. destruct (colorAt s i); reflexivity.
  - cbn [fold_left existsb]. rewrite IH, colorAt_setFg.
    destruct (colorAt s i); cbn [option_map]; [|reflexivity].
    destruct ((fst m <=? i) && (i <? fst m + snd m)),
      (existsb (fun m0 => (fst m0 <=? i) && (i <? fst m0 + snd m0)) ms);
      reflexivity.
Qed.

Lemma stack_highlight s ms : ss_stack (highlight s ms) = ss_stack s.
Proof.
  unfold highlight. revert s. induction ms as [|m ms IH]; intros s;
    [reflexivity|].
  cbn [fold_left]. now rewrite IH.
Qed.

(** With a data pattern, a block is written exactly when the pattern has a
    match in it. *)
Lemma msgReady_written_iff_matches env reqid msg p :
  op msg <> mc_op_end -> gDataPattern env = Some p ->
  ((exists out, In (SinkWrite out) (fst (msgReady env reqid msg)))
   <-> matchAll (text (snd (renderMessage env reqid msg))) p <> []).
Proof.
  intros Hop Hp. rewrite (msgReady_unfold env reqid msg Hop). cbn [fst].
  unfold filterAndHighlight. rewrite Hp.
  pose proof (renderMessage_no_sink env reqid msg) as HF.
  rewrite Forall_forall in HF.
  destruct (matchAll (text (snd (renderMessage env reqid msg))) p)
    as [|m ms] eqn:E.
  - split; [|intros H; contradiction].
    intros (out & Hin). rewrite app_nil_r in Hin.
    apply HF in Hin. discriminate.
  - split; [intros _; discriminate|]. intros _.
    exists (highlight (snd (renderMessage env reqid msg)) (m :: ms)).
    apply in_or_app. right. left. reflexivity.
Qed.

(** X8. With a data pattern, a written block is the rendered block with the
    same text and no append color pushed, where every byte inside one of
    the matches of the pattern is recolored in [matchColor] and every other
    byte keeps the color it was rendered with. *)
Theorem msgReady_highlight_colors (env : Env) (reqid : N) (msg : McMsg)
  (p : Regex) (out : StyledString) :
  op msg <> mc_op_end -> gDataPattern env = Some p ->
  In (SinkWrite out) (fst (msgReady env reqid msg)) ->
  text out = text (snd (renderMessage env reqid msg))
  /\ ss_stack out = []
  /\ (forall i, colorAt out i =
        option_map
          (fun c => if inMatch (matchAll (text (snd (renderMessage env reqid msg))) p) i
                    then matchColor else c)
          (colorAt (snd (renderMessage env reqid msg)) i)).
Proof.
  intros Hop Hp. rewrite (msgReady_unfold env reqid msg Hop). cbn [fst].
  unfold filterAndHighlight. rewrite Hp.
  pose proof (renderMessage_no_sink env reqid msg) as HF.
  rewrite Forall_forall in HF.
  assert (Hst : ss_stack (snd (renderMessage env reqid msg)) = [])
    by (rewrite renderMessage_eq; reflexivity).
  intros Hin. apply in_app_or in Hin as [Hin|Hin].
  { apply HF in Hin. discriminate. }
  destruct (matchAll (text (snd (renderMessage env reqid msg))) p)
    as [|m ms] eqn:E; [destruct Hin|].
  destruct Hin as [Hin|[Hin|[]]]; [|discriminate].
  injection Hin as <-.
  split; [exact (text_highlight _ (m :: ms))|]. split.
  - exact (eq_trans (stack_highlight _ (m :: ms)) Hst).
  - intros i. exact (colorAt_highlight _ (m :: ms) i).
Qed.

Lemma msgReady_highlight_colors_witness :
  text (highlight (snd (renderMessage (sampleEnv false (Some (literalRegex "k"))) 0
                          (mkMsg mc_op_get mc_res_found "k" 0 0 "")))
          (matchAll (text (snd (renderMessage (sampleEnv false (Some (literalRegex "k"))) 0
                                  (mkMsg mc_op_get mc_res_found "k" 0 0 ""))))
             (literalRegex "k")))
  = text (snd (renderMessage (sampleEnv false (Some (literalRegex "k"))) 0
                 (mkMsg mc_op_get mc_res_found "k" 0 0 "")))
  /\ ss_stack (highlight (snd (renderMessage (sampleEnv false (Some (literalRegex "k"))) 0
                          (mkMsg mc_op_get mc_res_found "k" 0 0 "")))
          (matchAll (text (snd (renderMessage (sampleEnv false (Some (literalRegex "k"))) 0
                                  (mkMsg mc_op_get mc_res_found "k" 0 0 ""))))
             (literalRegex "k"))) = []
  /\ (forall i,
        colorAt (highlight (snd (renderMessage (sampleEnv false (Some (literalRegex "k"))) 0
                          (mkMsg mc_op_get mc_res_found "k" 0 0 "")))
          (matchAll (text (snd (renderMessage (sampleEnv false (Some (literalRegex "k"))) 0
                                  (mkMsg mc_op_get mc_res_found "k" 0 0 ""))))
             (literalRegex "k"))) i =
        option_map
          (fun c => if inMatch (matchAll (text (snd (renderMessage (sampleEnv false (Some (literalRegex "k"))) 0
                          (mkMsg mc_op_get mc_res_found "k" 0 0 "")))) (literalRegex "k")) i
                    then matchColor else c)
          (colorAt (snd (renderMessage (sampleEnv false (Some (literalRegex "k"))) 0
                          (mkMsg mc_op_get mc_res_found "k" 0 0 ""))) i)).
Proof.
  apply (msgReady_highlight_colors (sampleEnv false (Some (literalRegex "k"))) 0
           (mkMsg mc_op_get mc_res_found "k" 0 0 "") (literalRegex "k")).
  - discriminate.
  - reflexivity.
  - vm_compute. left. reflexivity.
Defined.

(** X9. With a data pattern, a message other than the end sentinel is
    written if and only if the pattern matches somewhere in its rendered
    block: at some position of the text, up to its end included, the
    pattern matches a (possibly empty) prefix of the rest. *)
Theorem msgReady_written_iff_pattern_matches (env : Env) (reqid : N)
  (msg : McMsg) (p : Regex) :
  op msg <> mc_op_end -> gDataPattern env = Some p ->
  ((exists out, In (SinkWrite out) (fst (msgReady env reqid msg)))
   <-> exists i, i <= String.length (text (snd (renderMessage env reqid msg)))
         /\ matchLengths p
              (skipn i (list_ascii_of_string
                          (text (snd (renderMessage env reqid msg))))) <> []).
Proof.
  intros Hop Hp. rewrite (msgReady_written_iff_matches env reqid msg p Hop Hp).
  split.
  - intros Hne. pose proof (matchAll_sound (text (snd (renderMessage env reqid msg))) p)
      as HS.
    destruct (matchAll (text (snd (renderMessage env reqid msg))) p)
      as [|m ms]; [contradiction|].
    apply Forall_inv in HS as [Hin Hle].
    exists (fst m). split; [lia|]. intros H. rewrite H in Hin. destruct Hin.
  - intros (i & Hi & Hne) Hnil.
    exact (Hne (proj1 (matchAll_nil _ p) Hnil i Hi)).
Qed.

Lemma msgReady_written_iff_pattern_matches_witness :
  (exists out, In (SinkWrite out)
     (fst (msgReady (sampleEnv false (Some (literalRegex "k"))) 0
             (mkMsg mc_op_get mc_res_found "k" 0 0 ""))))
  <-> exists i,
      i <= String.length (text (snd (renderMessage (sampleEnv false (Some (literalRegex "k"))) 0
                                     (mkMsg mc_op_get mc_res_found "k" 0 0 ""))))
      /\ matchLengths (literalRegex "k")
           (skipn i (list_ascii_of_string
                       (text (snd (renderMessage (sampleEnv false (Some (literalRegex "k"))) 0
                                     (mkMsg mc_op_get mc_res_found "k" 0 0 "")))))) <> [].
Proof.
  exact (msgReady_written_iff_pattern_matches
           (sampleEnv false (Some (literalRegex "k"))) 0
           (mkMsg mc_op_get mc_res_found "k" 0 0 "") (literalRegex "k")
           ltac:(discriminate) eq_refl).
Defined.

(** X10. A data pattern that matches the empty string at the end of a text
    (such as ["a*"]) never drops a message: every message other than the end
    sentinel is written. *)
Theorem empty_matching_pattern_drops_nothing (env : Env) (reqid : N)
  (msg : McMsg) (p : Regex) :
  op msg <> mc_op_end -> gDataPattern env = Some p ->
  In 0 (matchLengths p []) ->
  exists out, In (SinkWrite out) (fst (msgReady env reqid msg)).
Proof.
  intros Hop Hp H0.
  apply (msgReady_written_iff_matches env reqid msg p Hop Hp).
  intros Hnil. pose proof (proj1 (matchAll_nil _ p) Hnil) as Hn. clear Hnil.
  rename Hn into Hnil. specialize (Hnil (String.length (text (snd (renderMessage env reqid msg))))
                (le_n _)).
  rewrite skipn_all2 in Hnil by (rewrite las_length; lia).
  rewrite Hnil in H0. destruct H0.
Qed.

Lemma empty_matching_pattern_drops_nothing_witness :
  exists out, In (SinkWrite out)
    (fst (msgReady (sampleEnv false (Some [(AChar "a", true)])) 0
            (mkMsg mc_op_get mc_res_found "k" 0 0 ""))).
Proof.
  exact (empty_matching_pattern_drops_nothing
           (sampleEnv false (Some [(AChar "a", true)])) 0
           (mkMsg mc_op_get mc_res_found "k" 0 0 "") [(AChar "a", true)]
           ltac:(discriminate) eq_refl ltac:(vm_compute; left; reflexivity)).
Defined.

(** ** Start-up of [run] *)

(** X11. A non-empty filename pattern that boost rejects ends the program
    with exit code 1 right after logging ["Invalid filename pattern: "]:
    nothing is printed on the standard output and the data pattern,
    whatever it is, is neither reported nor used. *)
Theorem runStartup_bad_filename_pattern (compile : string -> option Regex)
  (filenamePattern matchExpression : string) :
  filenamePattern <> "" -> compile filenamePattern = None ->
  runStartup compile filenamePattern matchExpression =
  ([LogErrorPrefix "Invalid filename pattern: "], StartupExit 1).
Proof.
  intros Hne Hc. unfold runStartup, buildFilenameRegex.
  destruct (String.eqb filenamePattern "") eqn:E.
  { apply String.eqb_eq in E. contradiction. }
  cbn [negb]. rewrite Hc. reflexivity.
Qed.

Lemma runStartup_bad_filename_pattern_witness :
  runStartup parseBRE "a\" "b" =
  ([LogErrorPrefix "Invalid filename pattern: "], StartupExit 1).
Proof.
  exact (runStartup_bad_filename_pattern parseBRE "a\" "b"
           ltac:(discriminate) eq_refl).
Defined.

(** X12. When the filename pattern is empty or accepted, [run] prints
    ["Filename pattern: "] and the pattern on a line if it is not empty,
    then ["Data pattern: "] and the data pattern on a line if it is not
    empty and accepted, or logs ["Invalid pattern: "] if it is rejected;
    it then goes on exactly as [buildDataRegex] decides (exit code 1, or
    the event loop with the compiled data pattern, null for an empty one). *)
Theorem runStartup_announcements (compile : string -> option Regex)
  (filenamePattern matchExpression : string) :
  filenamePattern = "" \/ compile filenamePattern <> None ->
  fst (runStartup compile filenamePattern matchExpression) =
  ((if String.eqb filenamePattern "" then []
    else [Stdout ("Filename pattern: " ++ filenamePattern ++ NL)])
   ++ (if String.eqb matchExpression "" then []
       else match compile matchExpression with
            | Some _ => [Stdout ("Data pattern: " ++ matchExpression ++ NL)]
            | None => [LogErrorPrefix "Invalid pattern: "]
            end))%list
  /\ snd (runStartup compile filenamePattern matchExpression)
     = buildDataRegex compile matchExpression.
Proof.
  intros Hf. unfold runStartup, buildFilenameRegex.
  destruct (String.eqb filenamePattern "") eqn:E; cbn [negb].
  - unfold buildDataRegex.
    destruct (String.eqb matchExpression ""); cbn [negb];
      [|destruct (compile matchExpression)]; split; reflexivity.
  - destruct (compile filenamePattern) eqn:C.
    + unfold buildDataRegex.
      destruct (String.eqb matchExpression ""); cbn [negb];
        [|destruct (compile matchExpression)]; split; reflexivity.
    + exfalso. destruct Hf as [Hf|Hf]; [|contradiction].
      subst. discriminate.
Qed.

Lemma runStartup_announcements_witness :
  fst (runStartup parseBRE "fifo.*" "a\") =
  ((if String.eqb "fifo.*" "" then []
    else [Stdout ("Filename pattern: " ++ "fifo.*" ++ NL)])
   ++ (if String.eqb "a\" "" then []
       else match parseBRE "a\" with
            | Some _ => [Stdout ("Data pattern: " ++ "a\" ++ NL)]
            | None => [LogErrorPrefix "Invalid pattern: "]
            end))%list
  /\ snd (runStartup parseBRE "fifo.*" "a\") = buildDataRegex parseBRE "a\".
Proof.
  assert (H : "fifo.*" = "" \/ parseBRE "fifo.*" <> None).
  { right. vm_compute. discriminate. }
  exact (runStartup_announcements parseBRE "fifo.*" "a\" H).
Defined.

(** ** The header line *)

Lemma length_concat_head (sep x : string) (l : list string) :
  String.length x <= String.length (String.concat sep (x :: l)).
Proof.
  destruct l as [|y l]; [cbn [String.concat]; lia|].
  cbn [String.concat]. rewrite length_sapp. lia.
Qed.

Lemma concat_cons_nonempty (sep x : string) (l : list string) :
  String.length x <> 0 -> String.concat sep (x :: l) <> "".
Proof.
  intros Hx H. pose proof (length_concat_head sep x l) as Hl.
  rewrite H in Hl. cbn in Hl. lia.
Qed.

(** X13. The header of a message is empty exactly when its operation and
    its result are both unknown and its key is empty; then the block has no
    header line (lines 147-167 and 179-183). *)
Theorem serializeMessageHeader_empty_iff (msg : McMsg) :
  serializeMessageHeader msg = ""
  <-> op msg = mc_op_unknown /\ result msg = mc_res_unknown /\ key msg = "".
Proof.
  rewrite serializeMessageHeader_fields. unfold headerFields.
  destruct (mc_op_beq (op msg) mc_op_unknown) eqn:Eo.
  2:{ cbn [app]. split.
      - intros H. exfalso. exact (concat_cons_nonempty _ _ _ (op_name_nonempty _) H).
      - intros (Ho & _). rewrite Ho in Eo. discriminate. }
  apply internal_mc_op_dec_bl in Eo.
  destruct (mc_res_beq (result msg) mc_res_unknown) eqn:Er.
  2:{ cbn [app]. split.
      - intros H. exfalso. exact (concat_cons_nonempty _ _ _ (res_name_nonempty _) H).
      - intros (_ & Hr & _). rewrite Hr in Er. discriminate. }
  apply internal_mc_res_dec_bl in Er.
  destruct (String.length (key msg) =? 0) eqn:Ek.
  - apply Nat.eqb_eq in Ek. cbn [app]. split; [|reflexivity].
    intros _. split; [exact Eo|split; [exact Er|]].
    destruct (key msg); [reflexivity|discriminate].
  - apply Nat.eqb_neq in Ek. cbn [app]. split.
    + intros H. exfalso.
      exact (concat_cons_nonempty _ _ _ (backslashify_nonempty _ Ek) H).
    + intros (_ & _ & Hk). rewrite Hk in Ek. contradiction.
Qed.
